(** * Exporter.js: hexagon tiles to TopoJSON

    A shallow embedding of [src/source/file/Exporter.js] (class [Exporter]:
    [toTopoJson] and [fromGeoJSON]) and the properties of it that the
    specification states.

    Layout: the JavaScript data the code works on (numbers, arrays, plain
    objects), then the two methods, then the lemmas and theorems. *)

From Stdlib Require Import ZArith String Ascii Bool Lia Arith PeanoNat List.
From Stdlib Require Import Permutation Sorted.
Import ListNotations.
Open Scope string_scope.
Open Scope Z_scope.
Open Scope list_scope.

Set Implicit Arguments.

(* ================================================================== *)
(** ** Errors *)

(** The only exception the two methods can raise themselves: a property
    read or a call on [undefined] or [null], or a call of something that is
    not a function.  JavaScript raises a [TypeError] for each. *)
Inductive error : Type := TypeError.

Inductive result (A : Type) : Type :=
| Ok (a : A)
| Throw (e : error).
Arguments Ok {A} a.
Arguments Throw {A} e.

Definition bind {A B : Type} (r : result A) (k : A -> result B) : result B :=
  match r with
  | Ok a => k a
  | Throw e => Throw e
  end.

Declare Scope js_scope.
Delimit Scope js_scope with js.
Notation "x <- r ;; k" := (bind r (fun x => k))
  (at level 61, r at next level, right associativity) : js_scope.
Notation "' p <- r ;; k" := (bind r (fun p => k))
  (at level 61, p pattern, r at next level, right associativity) : js_scope.
Open Scope js_scope.

(** [array.map(f)] with a callback that may throw: left to right, the first
    exception ends the loop. *)
Fixpoint mapM {A B : Type} (f : A -> result B) (l : list A) : result (list B) :=
  match l with
  | [] => Ok []
  | a :: l' => b <- f a ;; bs <- mapM f l' ;; Ok (b :: bs)
  end.

(* ================================================================== *)
(** ** Numbers

    A JavaScript number is an IEEE-754 double.  The model keeps the doubles
    whose value is an integer, the two infinities and NaN; [Int z] stands
    for the double of value [z] (the two zeros are not told apart, as [===]
    does not).  The result of an operation on integers is the exact result
    rounded to the nearest double, ties to the even significand, which
    [round_double] writes out: a double has 53 significant bits. *)
Inductive number : Type :=
| Int (z : Z)
| PosInf
| NegInf
| NaN.

Definition round_double (z : Z) : number :=
  let a := Z.abs z in
  let k := Z.log2 a - 52 in
  if k <=? 0 then Int z
  else
    let q := a / 2 ^ k in
    let r := a mod 2 ^ k in
    let half := 2 ^ (k - 1) in
    let q' :=
      if r <? half then q
      else if half <? r then q + 1
      else if Z.even q then q else q + 1 in
    let m := q' * 2 ^ k in
    if 2 ^ 1024 <=? m then (if z <? 0 then NegInf else PosInf)
    else Int (Z.sgn z * m).

(** [z] is the value of some double. *)
Definition representable (z : Z) : Prop := round_double z = Int z.

(** [a - b] *)
Definition js_sub (a b : number) : number :=
  match a, b with
  | NaN, _ | _, NaN => NaN
  | Int x, Int y => round_double (x - y)
  | Int _, PosInf => NegInf
  | Int _, NegInf => PosInf
  | PosInf, PosInf => NaN
  | PosInf, _ => PosInf
  | NegInf, NegInf => NaN
  | NegInf, _ => NegInf
  end.

(** [a + b] on numbers *)
Definition js_add (a b : number) : number :=
  match a, b with
  | NaN, _ | _, NaN => NaN
  | Int x, Int y => round_double (x + y)
  | Int _, PosInf => PosInf
  | Int _, NegInf => NegInf
  | PosInf, NegInf => NaN
  | PosInf, _ => PosInf
  | NegInf, PosInf => NaN
  | NegInf, _ => NegInf
  end.

(** [a % b]: the remainder has the sign of the dividend and is exact. *)
Definition js_rem (a b : number) : number :=
  match a, b with
  | NaN, _ | _, NaN => NaN
  | PosInf, _ | NegInf, _ => NaN
  | Int x, Int y => if y =? 0 then NaN else Int (Z.rem x y)
  | Int x, _ => Int x
  end.

(** [Math.max(a, b)] *)
Definition Math_max (a b : number) : number :=
  match a, b with
  | NaN, _ | _, NaN => NaN
  | PosInf, _ | _, PosInf => PosInf
  | NegInf, n | n, NegInf => n
  | Int x, Int y => Int (Z.max x y)
  end.

(* ================================================================== *)
(** ** Values of GeoJSON coordinates

    [feature.geometry.coordinates] is read without any check of its shape,
    so it is modelled untyped: a value is a number or an array of values.
    Other elements (null, undefined, strings, objects) are outside the
    model: statements over [value] speak of coordinates nested over numbers
    only, and the TypeError of reading [points[i][0]] on a null or undefined
    element cannot be stated here. *)
#[warnings="-register-all"]
Inductive value : Type :=
| VNum (n : number)
| VArr (elts : list value).

(** [v[i]]: [None] is [undefined].  A number has no indexed property. *)
Definition index (v : value) (i : nat) : option value :=
  match v with
  | VNum _ => None
  | VArr l => nth_error l i
  end.

(** [ToNumber(v)], as the operator [-] applies it.  An array goes through
    [toString], which joins the elements with a comma: the empty array gives
    the empty string, that is 0; a one-element array gives what its element
    gives; a longer one gives a string with a comma in it, that is NaN. *)
Fixpoint ToNumber (v : value) : number :=
  match v with
  | VNum n => n
  | VArr [] => Int 0
  | VArr [x] => ToNumber x
  | VArr _ => NaN
  end.

(** [ToNumber] of what an index read gave; [undefined] is NaN. *)
Definition ToNumber_opt (o : option value) : number :=
  match o with
  | Some v => ToNumber v
  | None => NaN
  end.

(** [points[i][c]], converted as [-] does.  [i] is within the array where
    the code reads it; out of range the read of [undefined[c]] would throw,
    which [mapi] below never asks for. *)
Definition coord (points : list value) (i c : nat) : number :=
  match nth_error points i with
  | Some p => ToNumber_opt (index p c)
  | None => NaN
  end.

(** [array.forEach((x, i) => out.push(f i x))] *)
Fixpoint mapi_from {A B : Type} (f : nat -> A -> B) (i : nat) (l : list A) : list B :=
  match l with
  | [] => []
  | a :: l' => f i a :: mapi_from f (S i) l'
  end.

Definition mapi {A B : Type} (f : nat -> A -> B) (l : list A) : list B :=
  mapi_from f 0 l.

(* ================================================================== *)
(** ** [fromGeoJSON] (lines 140-184) *)

Module DeltaEncoder.

(** [feature.geometry]: the declared [type] and the [coordinates] array. *)
Record Geometry : Type := {
  geo_type : string;
  coordinates : list value;
}.

(** An input feature; [geometry] is [None] for GeoJSON's [null]. *)
Record Feature : Type := {
  feature_id : string;
  geometry : option Geometry;
}.

Record GeoJSON : Type := { features : list Feature }.

Definition Arc : Type := list value.

(** The [arcs] member of an output geometry: [[geometryArcIndices]] or
    [geometryArcIndices.map(index => [[index]])]. *)
Inductive ArcRefs : Type :=
| Rings (rings : list (list nat))
| Parts (parts : list (list (list nat))).

Record TopoGeometry : Type := {
  type : string;
  id : string;
  arcs : ArcRefs;
}.

Record Transform : Type := {
  scale : number * number;
  translate : number * number;
}.

Record GeometryCollection : Type := {
  collection_type : string;
  geometries : list TopoGeometry;
}.

Record Topology : Type := {
  topology_type : string;
  transform : Transform;
  objects : list (string * GeometryCollection);
  topology_arcs : list Arc;
}.

(** The callback of [points.forEach] (lines 158-167): what is pushed on
    [arc] for [point] at [pointIndex]. *)
Definition arc_point (points : list value) (pointIndex : nat) (point : value) : value :=
  if (pointIndex =? 0)%nat then point
  else VArr [VNum (js_sub (coord points pointIndex 0) (coord points (pointIndex - 1) 0));
             VNum (js_sub (coord points pointIndex 1) (coord points (pointIndex - 1) 1))].

(** Lines 157-167: the arc of [points]. *)
Definition encode_arc (points : list value) : Arc :=
  mapi (arc_point points) points.

(** Line 156, [hasMultiplePaths ? path[0] : path], and the receiver check of
    [points.forEach]: only an array has [forEach]. *)
Definition path_points (hasMultiplePaths : bool) (path : value) : result (list value) :=
  let points := if hasMultiplePaths then index path 0 else Some path in
  match points with
  | Some (VArr l) => Ok l
  | Some (VNum _) => Throw TypeError
  | None => Throw TypeError
  end.

(** Lines 155-170: [coordinates.forEach], threading the shared [arcs] array
    and the feature's [geometryArcIndices]. *)
Fixpoint encode_paths (hasMultiplePaths : bool) (paths : list value)
    (arcs : list Arc) (geometryArcIndices : list nat)
    : result (list Arc * list nat) :=
  match paths with
  | [] => Ok (arcs, geometryArcIndices)
  | path :: rest =>
      points <- path_points hasMultiplePaths path ;;
      let arcs' := arcs ++ [encode_arc points] in
      encode_paths hasMultiplePaths rest arcs'
        (geometryArcIndices ++ [(length arcs' - 1)%nat])
  end.

(** Lines 152-178: the callback of [geoJSON.features.map]. *)
Definition encode_feature (arcs : list Arc) (feature : Feature)
    : result (list Arc * TopoGeometry) :=
  match geometry feature with
  | None => Throw TypeError
  | Some g =>
      let hasMultiplePaths := (1 <? length (coordinates g))%nat in
      '(arcs', geometryArcIndices) <-
        encode_paths hasMultiplePaths (coordinates g) arcs [] ;;
      Ok (arcs',
          {| type := if hasMultiplePaths then "MultiPolygon" else "Polygon";
             id := feature_id feature;
             arcs := if hasMultiplePaths
                     then Parts (map (fun index => [[index]]) geometryArcIndices)
                     else Rings [geometryArcIndices] |})
  end.

Fixpoint encode_features (arcs : list Arc) (fs : list Feature)
    : result (list Arc * list TopoGeometry) :=
  match fs with
  | [] => Ok (arcs, [])
  | f :: fs' =>
      '(arcs1, g) <- encode_feature arcs f ;;
      '(arcs2, gs) <- encode_features arcs1 fs' ;;
      Ok (arcs2, g :: gs)
  end.

(** [objectId || 'states']: [undefined] and the empty string are falsy. *)
Definition objectId_or_default (objectId : option string) : string :=
  match objectId with
  | None => "states"
  | Some s => if String.eqb s "" then "states" else s
  end.

Definition fromGeoJSON (geoJSON : GeoJSON) (objectId : option string) : result Topology :=
  '(arcs, geoms) <- encode_features [] (features geoJSON) ;;
  Ok {| topology_type := "Topology";
        transform := {| scale := (Int 1, Int 1); translate := (Int 0, Int 0) |};
        objects := [(objectId_or_default objectId,
                     {| collection_type := "GeometryCollection";
                        geometries := geoms |})];
        topology_arcs := arcs |}.

(** The decoder of an arc, written from the specification's words (no
    decoder is part of this repository: arcs are decoded by the readers of
    TopoJSON): prefix-sum the displacements, left to right, onto the absolute
    first point. *)
Fixpoint decode_from (previous : value) (displacements : list value) : list value :=
  match displacements with
  | [] => []
  | d :: rest =>
      let p := VArr [VNum (js_add (ToNumber_opt (index previous 0)) (ToNumber_opt (index d 0)));
                     VNum (js_add (ToNumber_opt (index previous 1)) (ToNumber_opt (index d 1)))] in
      p :: decode_from p rest
  end.

Definition decode (arc : Arc) : list value :=
  match arc with
  | [] => []
  | first :: displacements => first :: decode_from first displacements
  end.

(** A 2D point with integer coordinates, as the array [[x, y]]. *)
Definition point2 (p : Z * Z) : value := VArr [VNum (Int (fst p)); VNum (Int (snd p))].

(** *** Predicates used to state the properties of the encoder *)

(** [arc] is the delta encoding of [points]: as many points, the first one
    the same value, each later one the pair of differences to the point
    just before it in [points]. *)
Definition delta_encoded (points : list value) (arc : Arc) : Prop :=
  length arc = length points
  /\ nth_error arc 0 = nth_error points 0
  /\ forall i p q,
       nth_error points (S i) = Some p ->
       nth_error points i = Some q ->
       nth_error arc (S i)
       = Some (VArr [VNum (js_sub (ToNumber_opt (index p 0)) (ToNumber_opt (index q 0)));
                     VNum (js_sub (ToNumber_opt (index p 1)) (ToNumber_opt (index q 1)))]).

(** [hasMultiplePaths] of a geometry (line 154). *)
Definition hasMultiplePaths (g : Geometry) : bool :=
  (1 <? length (coordinates g))%nat.

(** The arcs one feature adds to [arcs], in the order of its paths. *)
Definition feature_arcs (f : Feature) : result (list Arc) :=
  match geometry f with
  | None => Throw TypeError
  | Some g =>
      pts <- mapM (path_points (hasMultiplePaths g)) (coordinates g) ;;
      Ok (map encode_arc pts)
  end.

(** The number of coordinate paths of a feature. *)
Definition path_count (f : Feature) : nat :=
  match geometry f with
  | None => 0
  | Some g => length (coordinates g)
  end.

(** The shape [fromGeoJSON] needs of a path: an array; for a feature of
    several paths, an array whose first element is an array. *)
Definition path_shaped (multiple : bool) (path : value) : bool :=
  match (if multiple then index path 0 else Some path) with
  | Some (VArr _) => true
  | _ => false
  end.

Definition feature_shaped (f : Feature) : bool :=
  match geometry f with
  | None => false
  | Some g => forallb (path_shaped (hasMultiplePaths g)) (coordinates g)
  end.

(** Every coordinate of the ring is an integer of magnitude at most 2^52. *)
Definition within_2_52 (ring : list (Z * Z)) : Prop :=
  Forall (fun p => Z.abs (fst p) <= 2 ^ 52 /\ Z.abs (snd p) <= 2 ^ 52) ring.

(** *** Arc references *)

(** The arc indices an output geometry refers to, in the order it lists
    them. *)
Definition arc_indices (g : TopoGeometry) : list nat :=
  match arcs g with
  | Rings rings => concat rings
  | Parts parts => concat (concat parts)
  end.

(** The geometry with every arc index moved up by [n]. *)
Definition shift_arcs (n : nat) (g : TopoGeometry) : TopoGeometry :=
  {| type := type g;
     id := id g;
     arcs := match arcs g with
             | Rings rings => Rings (map (map (Nat.add n)) rings)
             | Parts parts => Parts (map (map (map (Nat.add n))) parts)
             end |}.

(** The geometries of all the objects of a topology. *)
Definition topology_geometries (t : Topology) : list TopoGeometry :=
  flat_map (fun object => geometries (snd object)) (objects t).

(** A ring, as [fromGeoJSON] is given it: an array whose first element is
    the point [[x, y]], followed by [rest]. *)
Definition ring_from (first : number * number) (rest : list value) : value :=
  VArr (VArr [VNum (fst first); VNum (snd first)] :: rest).

(** *** Inputs for the examples *)

(** A one-path feature (a triangle) followed by a two-part feature. *)
Definition example_geoJSON : GeoJSON :=
  {| features :=
       [ {| feature_id := "A";
            geometry := Some {| geo_type := "Polygon";
                                coordinates :=
                                  [VArr (map point2 [(0, 0); (4, 0); (4, 3); (0, 0)])] |} |};
         {| feature_id := "B";
            geometry := Some {| geo_type := "MultiPolygon";
                                coordinates :=
                                  [VArr [VArr (map point2 [(1, 1); (2, 1); (1, 1)])];
                                   VArr [VArr (map point2 [(5, 5); (5, 7); (5, 5)])]] |} |} ] |}.

(** A feature declared as a MultiPolygon that has a single part, of one
    ring. *)
Definition example_single_part : Geometry :=
  {| geo_type := "MultiPolygon";
     coordinates := [VArr [VArr (map point2 [(0, 0); (4, 0); (0, 0)])]] |}.

End DeltaEncoder.

(* ================================================================== *)
(** ** Plain objects

    [tilesByState] is a plain object ([{}]) used as a map from region id to
    an array of tiles or [null].  What the code observes of it:
    - its own properties, in the order they were created;
    - a read of a name it does not own falls through to [Object.prototype];
    - [Object.keys] lists the own names that are array indices first, in
      ascending numeric order, and then the other names in creation order. *)

Definition JsObject (V : Type) : Type := list (string * V).

Fixpoint own_get {V : Type} (k : string) (o : JsObject V) : option V :=
  match o with
  | [] => None
  | (k', v) :: o' => if String.eqb k k' then Some v else own_get k o'
  end.

(** [o[k] = v]: an own property keeps its place, a new one goes last. *)
Fixpoint set {V : Type} (k : string) (v : V) (o : JsObject V) : JsObject V :=
  match o with
  | [] => [(k, v)]
  | (k', v') :: o' =>
      if String.eqb k k' then (k, v) :: o' else (k', v') :: set k v o'
  end.

Definition own_keys {V : Type} (o : JsObject V) : list string := map fst o.

(** The names every plain object inherits from [Object.prototype]; each
    holds a function or an object, so each is truthy and none has [push]. *)
Definition Object_prototype_names : list string :=
  ["constructor"; "hasOwnProperty"; "isPrototypeOf"; "propertyIsEnumerable";
   "toLocaleString"; "toString"; "valueOf"; "__proto__";
   "__defineGetter__"; "__defineSetter__"; "__lookupGetter__"; "__lookupSetter__"].

Definition mem (k : string) (l : list string) : bool := existsb (String.eqb k) l.

Definition inherited (k : string) : bool := mem k Object_prototype_names.

Definition digit_of (c : ascii) : option N :=
  let n := N_of_ascii c in
  if ((48 <=? n) && (n <=? 57))%N then Some (n - 48)%N else None.

Fixpoint digits_value (acc : N) (s : string) : option N :=
  match s with
  | EmptyString => Some acc
  | String c s' =>
      match digit_of c with
      | Some d => digits_value (10 * acc + d)%N s'
      | None => None
      end
  end.

(** A property name is an array index when it is the decimal writing,
    without a leading zero, of an integer from 0 to 2^32 - 2. *)
Definition array_index (s : string) : option N :=
  match s with
  | EmptyString => None
  | String "0" EmptyString => Some 0%N
  | String "0" _ => None
  | _ =>
      match digits_value 0 s with
      | Some n => if (n <=? 4294967294)%N then Some n else None
      | None => None
      end
  end.

Definition is_array_index (s : string) : bool :=
  match array_index s with Some _ => true | None => false end.

Fixpoint insert_index (k : N * string) (l : list (N * string)) : list (N * string) :=
  match l with
  | [] => [k]
  | h :: t => if (fst k <=? fst h)%N then k :: l else h :: insert_index k t
  end.

Definition sort_indices (l : list (N * string)) : list (N * string) :=
  fold_right insert_index [] l.

Fixpoint index_keys (ks : list string) : list (N * string) :=
  match ks with
  | [] => []
  | k :: ks' =>
      match array_index k with
      | Some n => (n, k) :: index_keys ks'
      | None => index_keys ks'
      end
  end.

(** The order in which [Object.keys] lists names created in the order [ks]. *)
Definition key_order (ks : list string) : list string :=
  map snd (sort_indices (index_keys ks))
    ++ filter (fun k => negb (is_array_index k)) ks.

Definition Object_keys {V : Type} (o : JsObject V) : list string :=
  key_order (own_keys o).

(** The names of [l] in the order of their first appearance, those of
    [seen] left out. *)
Fixpoint first_appearances (seen : list string) (l : list string) : list string :=
  match l with
  | [] => []
  | k :: l' =>
      if mem k seen then first_appearances seen l'
      else k :: first_appearances (k :: seen) l'
  end.

(* ================================================================== *)
(** ** [toTopoJson] (lines 23-99) *)

Module TopoExporter.

Definition OBJECT_ID : string := "tiles".

Record Position : Type := { x : Z; y : Z }.

Record Tile : Type := { id : string; position : Position }.

(** The value of [tilesByState[stateId]]: [None] is [null]. *)
Definition StateTiles : Type := option (list Tile).

(** Lines 31-36, the callback of [tiles.forEach].  [!tilesByState[tile.id]]
    holds when the name is neither owned with an array nor inherited; the
    [push] that follows needs an array. *)
Definition add_tile (tilesByState : JsObject StateTiles) (tile : Tile)
    : result (JsObject StateTiles) :=
  let falsy :=
    match own_get (id tile) tilesByState with
    | Some (Some _) => false
    | Some None => true
    | None => negb (inherited (id tile))
    end in
  let tilesByState1 :=
    if falsy then set (id tile) (Some []) tilesByState else tilesByState in
  match own_get (id tile) tilesByState1 with
  | Some (Some stateTiles) =>
      Ok (set (id tile) (Some (stateTiles ++ [tile])) tilesByState1)
  | Some None => Throw TypeError
  | None => Throw TypeError
  end.

Fixpoint add_tiles (tilesByState : JsObject StateTiles) (tiles : list Tile)
    : result (JsObject StateTiles) :=
  match tiles with
  | [] => Ok tilesByState
  | tile :: rest =>
      tilesByState1 <- add_tile tilesByState tile ;;
      add_tiles tilesByState1 rest
  end.

Section Dataset.
Variable Metric : Type.

(** Lines 37-40, the callback of [dataset.forEach]. *)
Definition add_entry (tilesByState : JsObject StateTiles) (d : string * Metric)
    : JsObject StateTiles :=
  let falsy :=
    match own_get (fst d) tilesByState with
    | Some (Some _) => false
    | Some None => true
    | None => negb (inherited (fst d))
    end in
  if falsy then set (fst d) None tilesByState else tilesByState.

(** Lines 30-40: the aggregation of the tiles by region. *)
Definition aggregate (tiles : list Tile) (dataset : list (string * Metric))
    : result (JsObject StateTiles) :=
  tilesByState <- add_tiles [] tiles ;;
  Ok (fold_left add_entry dataset tilesByState).

End Dataset.

Section Collaborators.
Variables Center Coord Dimensions Name Metric Geography Label Version TopoJSON : Type.

Definition Point : Type := (Coord * Coord)%type.
Definition Ring : Type := list Point.

Inductive Geometry : Type :=
| Polygon (coordinates : list Ring)
| MultiPolygon (coordinates : list (list Ring)).

Definition geometry_type (g : Geometry) : string :=
  match g with
  | Polygon _ => "Polygon"
  | MultiPolygon _ => "MultiPolygon"
  end.

Record Properties : Type := {
  name : Name;
  tilegramValue : Metric;
}.

Record Feature : Type := {
  feature_type : string;
  geometry : option Geometry;
  feature_id : string;
  properties : Properties;
}.

Record FeatureCollection : Type := {
  collection_type : string;
  features : list Feature;
}.

Record ExportProperties : Type := {
  tilegramMetricPerTile : Label;
  tilegramVersion : Version;
  tilegramTileSize : Dimensions;
  tilegramGeography : Geography;
}.

(** What [toTopoJson] returns: the external builder's topology with the
    [properties] member the method sets on it. *)
Record Export : Type := {
  topoJson : TopoJSON;
  export_properties : ExportProperties;
}.

(** The imported collaborators, none of which is in the repository's
    sources: [gridGeometry], [geographyResource], topojson's [topology] (with
    the fixed options of lines 88-91) and the package's [version].
    [getGeoCodeHash geography stateId] is [None] when
    [geoCodeToName[stateId]] is [undefined], and else the [name] of the
    entry. *)
Record Collaborators : Type := {
  tileCenterPoint : number * number -> Center;
  getPointsAround : Center -> list Point;
  getTileDimensions : Dimensions;
  getGeoCodeHash : Geography -> string -> option Name;
  topology : list (string * FeatureCollection) -> TopoJSON;
  version : Version;
}.

Variable C : Collaborators.

(** Lines 24-27 *)
Definition max_tile_y (tiles : list Tile) : number :=
  fold_left (fun max tile => Math_max max (Int (y (position tile)))) tiles NegInf.

(** Lines 48-57, the callback of [stateTiles.map]: the closed ring of one
    tile.  [hexagonPoints[0][0]] throws when the collaborator gave no
    point. *)
Definition hexagon_ring (maxTileY : number) (tile : Tile) : result Ring :=
  let center :=
    tileCenterPoint C
      (Int (x (position tile)),
       js_sub (js_sub maxTileY (Int (y (position tile)))) (js_rem maxTileY (Int 2))) in
  let hexagonPoints := getPointsAround C center in
  match hexagonPoints with
  | [] => Throw TypeError
  | first :: _ => Ok (hexagonPoints ++ [(fst first, snd first)])
  end.

(** Lines 44-69 *)
Definition make_geometry (maxTileY : number) (stateTiles : StateTiles)
    : result (option Geometry) :=
  match stateTiles with
  | None => Ok None
  | Some tiles =>
      tilesCoordinates <- mapM (hexagon_ring maxTileY) tiles ;;
      Ok (Some (if negb (length tilesCoordinates =? 1)%nat
                then MultiPolygon (map (fun t => [t]) tilesCoordinates)
                else Polygon tilesCoordinates))
  end.

(** Lines 42-80, the callback of [Object.keys(tilesByState).map]. *)
Definition make_feature (maxTileY : number) (geoCodeToName : string -> option Name)
    (dataset : list (string * Metric)) (tilesByState : JsObject StateTiles)
    (stateId : string) : result Feature :=
  match own_get stateId tilesByState with
  | None => Throw TypeError
  | Some stateTiles =>
      geometry <- make_geometry maxTileY stateTiles ;;
      match geoCodeToName stateId with
      | None => Throw TypeError
      | Some name =>
          match find (fun d => String.eqb (fst d) stateId) dataset with
          | None => Throw TypeError
          | Some d =>
              Ok {| feature_type := "Feature";
                    geometry := geometry;
                    feature_id := stateId;
                    properties := {| name := name; tilegramValue := snd d |} |}
          end
      end
  end.

(** Lines 24-80: the [features] array. *)
Definition toTopoJson_features (tiles : list Tile) (dataset : list (string * Metric))
    (geography : Geography) : result (list Feature) :=
  let maxTileY := max_tile_y tiles in
  let geoCodeToName := getGeoCodeHash C geography in
  tilesByState <- aggregate tiles dataset ;;
  mapM (make_feature maxTileY geoCodeToName dataset tilesByState)
       (Object_keys tilesByState).

Definition toTopoJson (tiles : list Tile) (dataset : list (string * Metric))
    (metricPerTile : Label) (geography : Geography) : result Export :=
  features <- toTopoJson_features tiles dataset geography ;;
  let geoJsonObjects :=
    [(OBJECT_ID, {| collection_type := "FeatureCollection"; features := features |})] in
  Ok {| topoJson := topology C geoJsonObjects;
        export_properties :=
          {| tilegramMetricPerTile := metricPerTile;
             tilegramVersion := version C;
             tilegramTileSize := getTileDimensions C;
             tilegramGeography := geography |} |}.

(** The center asked of the grid for [tile] (lines 50-53). *)
Definition tile_center (maxTileY : number) (tile : Tile) : Center :=
  tileCenterPoint C
    (Int (x (position tile)),
     js_sub (js_sub maxTileY (Int (y (position tile)))) (js_rem maxTileY (Int 2))).

(** *** Predicates used to state the properties of the features *)

(** A ring is closed when its last point repeats its first. *)
Definition closed (ring : Ring) : Prop :=
  exists first middle, ring = first :: middle ++ [first].

(** [feature] is the feature of region [stateId], whose tiles are
    [stateTiles]: it carries the id, the name and the metric of the region;
    its geometry is [null] for a region without tiles, a Polygon of the one
    ring for a region of one tile, and a MultiPolygon of one part per tile,
    each part made of the tile's ring, for a region of two tiles or more. *)
Definition feature_of_region (maxTileY : number) (geoCodeToName : string -> option Name)
    (dataset : list (string * Metric)) (stateTiles : StateTiles) (stateId : string)
    (feature : Feature) : Prop :=
  feature_id feature = stateId
  /\ geoCodeToName stateId = Some (name (properties feature))
  /\ (exists d, find (fun d => String.eqb (fst d) stateId) dataset = Some d
                /\ tilegramValue (properties feature) = snd d)
  /\ match stateTiles with
     | None => geometry feature = None
     | Some tiles =>
         exists rings,
           mapM (hexagon_ring maxTileY) tiles = Ok rings
           /\ length rings = length tiles
           /\ Forall closed rings
           /\ (length tiles = 1%nat -> geometry feature = Some (Polygon rings))
           /\ ((2 <= length tiles)%nat ->
               geometry feature = Some (MultiPolygon (map (fun ring => [ring]) rings)))
     end.

End Collaborators.

Arguments closed {Coord} ring.

(** *** Predicates used to state the properties of the exporter *)

(** The tiles of region [k], in the order of [tiles]. *)
Definition tiles_of_region (k : string) (tiles : list Tile) : list Tile :=
  filter (fun tile => String.eqb (id tile) k) tiles.

(** The array that [tilesByState[k]] holds, empty when it holds none. *)
Definition region_array (tilesByState : JsObject StateTiles) (k : string) : list Tile :=
  match own_get k tilesByState with
  | Some (Some stateTiles) => stateTiles
  | _ => []
  end.

(** *** Stand-ins for the collaborators, for the examples *)

Definition example_names : list (string * string) :=
  [("X", "Xanadu"); ("Y", "Yonder"); ("1", "One"); ("2", "Two")].

Definition example_collaborators
    : Collaborators (number * number) number (Z * Z) string Z string string
        (list (string * FeatureCollection number string Z)) :=
  {| tileCenterPoint := fun p => p;
     getPointsAround := fun c =>
       [ (fst c, js_add (snd c) (Int 2));
         (js_add (fst c) (Int 2), js_add (snd c) (Int 1));
         (js_add (fst c) (Int 2), js_sub (snd c) (Int 1));
         (fst c, js_sub (snd c) (Int 2));
         (js_sub (fst c) (Int 2), js_sub (snd c) (Int 1));
         (js_sub (fst c) (Int 2), js_add (snd c) (Int 1)) ];
     getTileDimensions := (4, 4);
     getGeoCodeHash := fun _ stateId =>
       option_map snd (find (fun e => String.eqb (fst e) stateId) example_names);
     topology := fun objects => objects;
     version := "1.0.0" |}.

Definition example_tile (k : string) (tx ty : Z) : Tile :=
  {| id := k; position := {| x := tx; y := ty |} |}.

End TopoExporter.

(* ================================================================== *)
(** ** The features of [toTopoJson] as input of [fromGeoJSON]

    Both methods work on GeoJSON features.  A feature built by [toTopoJson]
    from a grid whose points are pairs of numbers is, read as [fromGeoJSON]
    reads its input, the following value: the same id, the same geometry
    type, and the coordinates as nested arrays. *)

Module Pipeline.

Definition point_value (p : number * number) : value :=
  VArr [VNum (fst p); VNum (snd p)].

Definition ring_value (ring : TopoExporter.Ring number) : value :=
  VArr (map point_value ring).

Definition geometry_value (g : TopoExporter.Geometry number) : DeltaEncoder.Geometry :=
  match g with
  | TopoExporter.Polygon rings =>
      {| DeltaEncoder.geo_type := "Polygon";
         DeltaEncoder.coordinates := map ring_value rings |}
  | TopoExporter.MultiPolygon parts =>
      {| DeltaEncoder.geo_type := "MultiPolygon";
         DeltaEncoder.coordinates := map (fun part => VArr (map ring_value part)) parts |}
  end.

Definition feature_value {Name Metric : Type}
    (f : TopoExporter.Feature number Name Metric) : DeltaEncoder.Feature :=
  {| DeltaEncoder.feature_id := TopoExporter.feature_id f;
     DeltaEncoder.geometry := option_map geometry_value (TopoExporter.geometry f) |}.

(** The rings of a feature, part after part. *)
Definition feature_rings {Name Metric : Type}
    (f : TopoExporter.Feature number Name Metric) : list (TopoExporter.Ring number) :=
  match TopoExporter.geometry f with
  | None => []
  | Some (TopoExporter.Polygon rings) => rings
  | Some (TopoExporter.MultiPolygon parts) => concat parts
  end.

(** The geometry type a feature declares; a feature without geometry
    declares none. *)
Definition declared_type {Name Metric : Type}
    (f : TopoExporter.Feature number Name Metric) : option string :=
  option_map (@TopoExporter.geometry_type number) (TopoExporter.geometry f).

(** The geometry [toTopoJson] gives a region of at least one tile: a
    Polygon of one ring, or a MultiPolygon of two parts or more, each of one
    ring. *)
Definition tiled_geometry (g : TopoExporter.Geometry number) : Prop :=
  match g with
  | TopoExporter.Polygon rings => length rings = 1%nat
  | TopoExporter.MultiPolygon parts =>
      (2 <= length parts)%nat /\ Forall (fun part => length part = 1%nat) parts
  end.

End Pipeline.

(* ================================================================== *)
(** * Properties *)

(** ** Numbers *)

Lemma round_double_exact (z : Z) :
  Z.abs z <= 2 ^ 53 -> round_double z = Int z.
Proof.
  intros Hz. unfold round_double. cbv zeta.
  destruct (Z.eq_dec (Z.abs z) (2 ^ 53)) as [E | NE].
  - assert (z = 2 ^ 53 \/ z = - 2 ^ 53) as [-> | ->] by lia; reflexivity.
  - assert (Hk : Z.log2 (Z.abs z) - 52 <= 0).
    { destruct (Z.eq_dec (Z.abs z) 0) as [E0 | N0].
      - rewrite E0. cbn. lia.
      - assert (Z.log2 (Z.abs z) < 53); [| lia].
        apply Z.log2_lt_pow2; lia. }
    apply Z.leb_le in Hk. rewrite Hk. reflexivity.
Qed.

Lemma js_sub_exact (a b : Z) :
  Z.abs (a - b) <= 2 ^ 53 -> js_sub (Int a) (Int b) = Int (a - b).
Proof. intros H. cbn. apply round_double_exact, H. Qed.

Lemma js_add_exact (a b : Z) :
  Z.abs (a + b) <= 2 ^ 53 -> js_add (Int a) (Int b) = Int (a + b).
Proof. intros H. cbn. apply round_double_exact, H. Qed.

(** ** Loops *)

Lemma mapi_from_length {A B : Type} (f : nat -> A -> B) (l : list A) :
  forall i, length (mapi_from f i l) = length l.
Proof. induction l as [| a l IH]; intros i; cbn; [reflexivity | now rewrite IH]. Qed.

Lemma mapi_from_nth {A B : Type} (f : nat -> A -> B) (l : list A) :
  forall i n, nth_error (mapi_from f i l) n = option_map (f (i + n)%nat) (nth_error l n).
Proof.
  induction l as [| a l IH]; intros i n.
  - destruct n; reflexivity.
  - destruct n as [| n]; cbn.
    + now rewrite Nat.add_0_r.
    + rewrite IH. now rewrite Nat.add_succ_r.
Qed.

Lemma mapM_length {A B : Type} (f : A -> result B) (l : list A) :
  forall bs, mapM f l = Ok bs -> length bs = length l.
Proof.
  induction l as [| a l IH]; cbn; intros bs H.
  - now inversion H.
  - destruct (f a) as [b |]; cbn in H; [| discriminate].
    destruct (mapM f l) as [bs' |]; cbn in H; [| discriminate].
    inversion H; subst. cbn. now rewrite (IH bs').
Qed.

Lemma mapM_Forall2 {A B : Type} (f : A -> result B) (l : list A) :
  forall bs, mapM f l = Ok bs -> Forall2 (fun a b => f a = Ok b) l bs.
Proof.
  induction l as [| a l IH]; cbn; intros bs H.
  - inversion H. constructor.
  - destruct (f a) as [b |] eqn:Ea; cbn in H; [| discriminate].
    destruct (mapM f l) as [bs' |]; cbn in H; [| discriminate].
    inversion H; subst. constructor; auto.
Qed.

Lemma mapM_In_Throw {A B : Type} (f : A -> result B) (l : list A) (a : A) (e : error) :
  In a l -> f a = Throw e -> mapM f l = Throw TypeError.
Proof.
  induction l as [| h l IH]; cbn; [tauto |].
  intros [-> | Hin] Ha.
  - rewrite Ha. now destruct e.
  - destruct (f h) as [b | []]; cbn; [| reflexivity].
    now rewrite (IH Hin Ha).
Qed.

(** ** The arc of a path *)

Section DeltaEncoderFacts.
Import DeltaEncoder.

Lemma encode_arc_delta_encoded (points : list value) :
  delta_encoded points (encode_arc points).
Proof.
  unfold delta_encoded, encode_arc, mapi. repeat split.
  - apply mapi_from_length.
  - rewrite mapi_from_nth. destruct (nth_error points 0); reflexivity.
  - intros i p q Hp Hq. rewrite mapi_from_nth, Hp.
    change (0 + S i)%nat with (S i). unfold option_map, arc_point, coord.
    change (S i =? 0)%nat with false. cbv iota.
    replace (S i - 1)%nat with i by lia. rewrite Hp, Hq. reflexivity.
Qed.

(** [encode_paths] in closed form: the points of every path are taken
    first, then one arc per path is appended and indexed. *)
Lemma encode_paths_eq (multiple : bool) (paths : list value) :
  forall arcs indices,
    encode_paths multiple paths arcs indices
    = (pts <- mapM (path_points multiple) paths ;;
       Ok (arcs ++ map encode_arc pts,
           indices ++ seq (length arcs) (length paths))).
Proof.
  induction paths as [| path rest IH]; intros arcs0 indices; cbn.
  - now rewrite !app_nil_r.
  - destruct (path_points multiple path) as [points |]; cbn; [| reflexivity].
    rewrite IH. destruct (mapM (path_points multiple) rest) as [pts |]; cbn; [| reflexivity].
    rewrite <- !app_assoc. cbn. rewrite length_app. cbn.
    replace (length arcs0 + 1 - 1)%nat with (length arcs0) by lia.
    replace (length arcs0 + 1)%nat with (S (length arcs0)) by lia.
    reflexivity.
Qed.

Lemma encode_feature_eq (arcs0 : list Arc) (f : Feature) :
  encode_feature arcs0 f
  = match geometry f with
    | None => Throw TypeError
    | Some g =>
        new_arcs <- feature_arcs f ;;
        let indices := seq (length arcs0) (length (coordinates g)) in
        Ok (arcs0 ++ new_arcs,
            {| type := if hasMultiplePaths g then "MultiPolygon" else "Polygon";
               id := feature_id f;
               arcs := if hasMultiplePaths g
                       then Parts (map (fun index => [[index]]) indices)
                       else Rings [indices] |})
    end.
Proof.
  unfold encode_feature, feature_arcs. destruct (geometry f) as [g |]; [| reflexivity].
  rewrite encode_paths_eq. fold (hasMultiplePaths g).
  destruct (mapM (path_points (hasMultiplePaths g)) (coordinates g)); reflexivity.
Qed.

Lemma feature_arcs_length (f : Feature) (new_arcs : list Arc) :
  feature_arcs f = Ok new_arcs -> length new_arcs = path_count f.
Proof.
  unfold feature_arcs, path_count. destruct (geometry f) as [g |]; [| discriminate].
  destruct (mapM _ _) as [pts |] eqn:E; cbn; [| discriminate].
  intros H. inversion H. rewrite length_map. eapply mapM_length, E.
Qed.

Lemma encode_features_eq (fs : list Feature) :
  forall arcs0 arcs1 gs,
    encode_features arcs0 fs = Ok (arcs1, gs) ->
    exists per_feature,
      mapM feature_arcs fs = Ok per_feature
      /\ arcs1 = arcs0 ++ concat per_feature
      /\ length gs = length fs.
Proof.
  induction fs as [| f fs IH]; cbn; intros arcs0 arcs1 gs H.
  - inversion H; subst. exists []. cbn. now rewrite app_nil_r.
  - rewrite encode_feature_eq in H.
    destruct (geometry f) as [g |] eqn:Eg; [| discriminate].
    destruct (feature_arcs f) as [new_arcs |]; cbn in H; [| discriminate].
    destruct (encode_features _ fs) as [[arcs2 gs'] |] eqn:E; cbn in H; [| discriminate].
    inversion H; subst. destruct (IH _ _ _ E) as (per & Hper & Harcs & Hlen).
    exists (new_arcs :: per). rewrite Hper. cbn. rewrite Harcs, <- app_assoc.
    repeat split. now rewrite Hlen.
Qed.

End DeltaEncoderFacts.

(** ** The delta encoder, claim by claim *)

Section DeltaEncoderClaims.
Import DeltaEncoder.

Lemma path_points_reads (multiple : bool) (path : value) (points : list value) :
  path_points multiple path = Ok points ->
  if multiple then index path 0 = Some (VArr points) else path = VArr points.
Proof.
  unfold path_points. destruct multiple; cbv zeta.
  - destruct (index path 0) as [[n | l] |]; try discriminate.
    intros H. now inversion H.
  - destruct path as [n | l]; try discriminate. intros H. now inversion H.
Qed.

Lemma path_arcs_delta (multiple : bool) (paths : list value) (pts : list (list value)) :
  mapM (path_points multiple) paths = Ok pts ->
  Forall2 (fun path arc =>
             exists points,
               (if multiple then index path 0 = Some (VArr points) else path = VArr points)
               /\ delta_encoded points arc)
          paths (map encode_arc pts).
Proof.
  intros E. apply mapM_Forall2 in E.
  induction E as [| path points paths pts Hp _ IH].
  - constructor.
  - cbn [map]. constructor; [| exact IH].
    exists points. split; [now apply path_points_reads | apply encode_arc_delta_encoded].
Qed.

Lemma feature_arcs_delta (f : Feature) (new_arcs : list Arc) :
  feature_arcs f = Ok new_arcs ->
  exists geom,
    geometry f = Some geom
    /\ Forall2 (fun path arc =>
                  exists points,
                    (if (1 <? length (coordinates geom))%nat
                     then index path 0 = Some (VArr points)
                     else path = VArr points)
                    /\ delta_encoded points arc)
               (coordinates geom) new_arcs.
Proof.
  unfold feature_arcs. destruct (geometry f) as [geom |]; [| discriminate].
  destruct (mapM _ _) as [pts |] eqn:E; [| discriminate].
  intros H. inversion H; subst; clear H. exists geom. split; [reflexivity |].
  apply (path_arcs_delta _ _ E).
Qed.

Lemma fromGeoJSON_arcs (geoJSON : GeoJSON) (objectId : option string) (topo : Topology) :
  fromGeoJSON geoJSON objectId = Ok topo ->
  exists per_feature,
    mapM feature_arcs (features geoJSON) = Ok per_feature
    /\ topology_arcs topo = concat per_feature.
Proof.
  unfold fromGeoJSON. destruct (encode_features [] (features geoJSON)) as [[arcs1 gs] |] eqn:E;
    cbn; [| discriminate].
  intros H. inversion H; subst; clear H. cbn.
  destruct (encode_features_eq _ _ E) as (per & Hper & Harcs & _).
  exists per. now split.
Qed.

(** C1, as amended.  For every feature given to [fromGeoJSON] and every
    entry [path] of its [coordinates], the arc produced is the delta encoding
    of the array of points that the code reads for it: [path] itself when
    the feature has at most one coordinate path, and [path[0]], the first
    element of the path, when the feature has more than one.  Of that array
    the arc has the length, its point 0 is the array's first entry itself,
    and for every i >= 1 its point i is the pair of differences of entry i
    and entry i-1, component by component: the displacement from the entry
    just before it, not from the start of the arc.  The arcs of the topology
    are these arcs, feature after feature. *)
Theorem fromGeoJSON_arc_is_delta
    (geoJSON : GeoJSON) (objectId : option string) (topo : Topology) :
  fromGeoJSON geoJSON objectId = Ok topo ->
  exists per_feature,
    topology_arcs topo = concat per_feature
    /\ Forall2 (fun f feature_arcs =>
                  exists geom,
                    geometry f = Some geom
                    /\ Forall2 (fun path arc =>
                                  exists points,
                                    (if (1 <? length (coordinates geom))%nat
                                     then index path 0 = Some (VArr points)
                                     else path = VArr points)
                                    /\ delta_encoded points arc)
                               (coordinates geom) feature_arcs)
               (features geoJSON) per_feature.
Proof.
  intros H. destruct (fromGeoJSON_arcs _ _ H) as (per & Hper & Harcs).
  exists per. split; [exact Harcs |].
  apply mapM_Forall2 in Hper. revert Hper. apply Forall2_impl.
  intros f new_arcs Hf. apply feature_arcs_delta, Hf.
Qed.

(** C1 as the specification states it fails: the feature below has two
    coordinate paths, each a ring of four points.  The arc produced for the
    first path is [[0, [NaN, NaN]]]: its point 0 is the number 0, not the
    path's first point [[0, 0]], and it is not the delta encoding of the
    path, which has four points. *)
Lemma fromGeoJSON_arc_not_of_path :
  exists topo,
    fromGeoJSON
      {| features :=
           [ {| feature_id := "A";
                geometry :=
                  Some {| geo_type := "Polygon";
                          coordinates :=
                            [ VArr (map point2 [(0, 0); (9, 0); (9, 9); (0, 0)]);
                              VArr (map point2 [(2, 2); (3, 2); (3, 3); (2, 2)]) ] |} |} ] |}
      None
    = Ok topo
    /\ nth_error (topology_arcs topo) 0 = Some [VNum (Int 0); VArr [VNum NaN; VNum NaN]]
    /\ nth_error [VNum (Int 0); VArr [VNum NaN; VNum NaN]] 0
       <> nth_error (map point2 [(0, 0); (9, 0); (9, 9); (0, 0)]) 0
    /\ ~ delta_encoded (map point2 [(0, 0); (9, 0); (9, 9); (0, 0)])
                       [VNum (Int 0); VArr [VNum NaN; VNum NaN]].
Proof.
  eexists. split; [reflexivity |]. split; [reflexivity |]. split.
  - cbn. intros H. discriminate H.
  - intros (Hlen & _). cbn in Hlen. discriminate Hlen.
Qed.

(** The round trip on the tail of a ring: [previous] is the point before
    [rest] in [ring], at index [i]. *)
Lemma decode_from_encode (ring : list (Z * Z)) :
  within_2_52 ring ->
  forall rest i previous,
    nth_error ring i = Some previous ->
    (forall n, nth_error rest n = nth_error ring (S i + n)) ->
    decode_from (point2 previous)
      (mapi_from (arc_point (map point2 ring)) (S i) (map point2 rest))
    = map point2 rest.
Proof.
  intros Hring. induction rest as [| q rest IH]; intros i previous Hprev Hrest; [reflexivity |].
  assert (Hq : nth_error ring (S i) = Some q).
  { rewrite <- (Nat.add_0_r (S i)). rewrite <- Hrest. reflexivity. }
  assert (Hbp : Z.abs (fst previous) <= 2 ^ 52 /\ Z.abs (snd previous) <= 2 ^ 52).
  { unfold within_2_52 in Hring. rewrite Forall_forall in Hring.
    apply Hring. eapply nth_error_In, Hprev. }
  assert (Hbq : Z.abs (fst q) <= 2 ^ 52 /\ Z.abs (snd q) <= 2 ^ 52).
  { unfold within_2_52 in Hring. rewrite Forall_forall in Hring.
    apply Hring. eapply nth_error_In, Hq. }
  assert (E : arc_point (map point2 ring) (S i) (point2 q)
              = point2 (fst q - fst previous, snd q - snd previous)).
  { unfold arc_point, coord. change (S i =? 0)%nat with false. cbv iota.
    replace (S i - 1)%nat with i by lia.
    rewrite !nth_error_map, Hq, Hprev. cbn [option_map point2 index nth_error ToNumber_opt ToNumber fst snd].
    rewrite !js_sub_exact by lia. reflexivity. }
  cbn [map mapi_from decode_from]. rewrite E.
  cbn [point2 index nth_error ToNumber_opt ToNumber fst snd].
  rewrite !js_add_exact by lia.
  replace (fst previous + (fst q - fst previous)) with (fst q) by lia.
  replace (snd previous + (snd q - snd previous)) with (snd q) by lia.
  change (VArr [VNum (Int (fst q)); VNum (Int (snd q))]) with (point2 q).
  f_equal. apply IH with (i := S i); [exact Hq |].
  intros n. specialize (Hrest (S n)). cbn [nth_error] in Hrest.
  rewrite Hrest. f_equal. lia.
Qed.

Lemma decode_encode_arc (ring : list (Z * Z)) :
  within_2_52 ring ->
  decode (encode_arc (map point2 ring)) = map point2 ring.
Proof.
  intros Hring. destruct ring as [| p rest] eqn:E; [reflexivity |].
  rewrite <- E in *. unfold encode_arc, mapi. rewrite E at 2 3. cbn [map mapi_from decode].
  change (arc_point (map point2 ring) 0 (point2 p)) with (point2 p).
  f_equal. apply decode_from_encode with (i := 0%nat); [exact Hring | now rewrite E |].
  intros n. now rewrite E.
Qed.

(** C2, as amended.  For every ring of at least 2 points whose coordinates
    are integers of magnitude at most 2^52, decoding the arc that the encoder
    produces for it (summing the displacements left to right onto the
    absolute first point) gives the ring back exactly. *)
Theorem decode_encode_roundtrip (ring : list (Z * Z)) :
  (2 <= length ring)%nat ->
  within_2_52 ring ->
  decode (encode_arc (map point2 ring)) = map point2 ring.
Proof. intros _. apply decode_encode_arc. Qed.

Lemma decode_encode_roundtrip_witness :
  decode (encode_arc (map point2 [(0, 0); (3, 4); (3, 10); (0, 0)]))
  = map point2 [(0, 0); (3, 4); (3, 10); (0, 0)].
Proof.
  apply decode_encode_roundtrip.
  - cbn. lia.
  - unfold within_2_52. repeat constructor; cbn; lia.
Defined.

(** C2 as the specification states it fails: the closed ring below has
    integer coordinates that a double holds exactly, yet the difference
    2^54 - 3 of its first two points is not a double and is rounded to
    2^54 - 4, so the decoded second point is off by one. *)
Lemma decode_encode_large_integers :
  representable (- (2 ^ 53 - 2)) /\ representable (2 ^ 53 - 1)
  /\ decode (encode_arc (map point2 [(- (2 ^ 53 - 2), 0); (2 ^ 53 - 1, 0);
                                      (- (2 ^ 53 - 2), 0)]))
     = map point2 [(- (2 ^ 53 - 2), 0); (2 ^ 53 - 2, 0); (- (2 ^ 53 - 2), 0)]
  /\ decode (encode_arc (map point2 [(- (2 ^ 53 - 2), 0); (2 ^ 53 - 1, 0);
                                      (- (2 ^ 53 - 2), 0)]))
     <> map point2 [(- (2 ^ 53 - 2), 0); (2 ^ 53 - 1, 0); (- (2 ^ 53 - 2), 0)].
Proof.
  split; [reflexivity |]. split; [reflexivity |]. split; [reflexivity |].
  vm_compute. intros H. discriminate H.
Qed.

Lemma fromGeoJSON_arc_is_delta_witness :
  exists topo,
    fromGeoJSON example_geoJSON None = Ok topo
    /\ exists per_feature,
         topology_arcs topo = concat per_feature
         /\ Forall2 (fun f feature_arcs =>
                       exists geom,
                         geometry f = Some geom
                         /\ Forall2 (fun path arc =>
                                       exists points,
                                         (if (1 <? length (coordinates geom))%nat
                                          then index path 0 = Some (VArr points)
                                          else path = VArr points)
                                         /\ delta_encoded points arc)
                                    (coordinates geom) feature_arcs)
                    (features example_geoJSON) per_feature.
Proof.
  eexists. split; [reflexivity |].
  apply (@fromGeoJSON_arc_is_delta example_geoJSON None). reflexivity.
Defined.

Lemma list_sum_concat_length {A : Type} (ls : list (list A)) :
  length (concat ls) = list_sum (map (@length A) ls).
Proof.
  induction ls as [| l ls IH]; cbn; [reflexivity |]. now rewrite length_app, IH.
Qed.

(** C3. For every input on which [fromGeoJSON] returns, the arcs of the
    topology are the arcs of the first feature's paths in path order, then
    those of the second feature, and so on; their number is the sum over the
    features of the number of coordinate paths. *)
Theorem fromGeoJSON_arcs_count_and_order
    (geoJSON : GeoJSON) (objectId : option string) (topo : Topology) :
  fromGeoJSON geoJSON objectId = Ok topo ->
  exists per_feature,
    mapM feature_arcs (features geoJSON) = Ok per_feature
    /\ topology_arcs topo = concat per_feature
    /\ length (topology_arcs topo) = list_sum (map path_count (features geoJSON)).
Proof.
  intros H. destruct (fromGeoJSON_arcs _ _ H) as (per & Hper & Harcs).
  exists per. repeat split; [exact Hper | exact Harcs |].
  rewrite Harcs, list_sum_concat_length. f_equal.
  apply mapM_Forall2 in Hper. clear - Hper.
  induction Hper as [| f new_arcs fs per Hf _ IH]; [reflexivity |].
  cbn [map]. now rewrite IH, (feature_arcs_length _ Hf).
Qed.

Lemma fromGeoJSON_arcs_count_and_order_witness :
  exists topo,
    fromGeoJSON example_geoJSON None = Ok topo
    /\ length (topology_arcs topo) = 3%nat
    /\ exists per_feature,
         mapM feature_arcs (features example_geoJSON) = Ok per_feature
         /\ topology_arcs topo = concat per_feature
         /\ length (topology_arcs topo)
            = list_sum (map path_count (features example_geoJSON)).
Proof.
  eexists. split; [reflexivity |]. split; [reflexivity |].
  apply (@fromGeoJSON_arcs_count_and_order example_geoJSON None). reflexivity.
Defined.

Lemma path_points_shaped (multiple : bool) (path : value) :
  (exists points, path_points multiple path = Ok points) <-> path_shaped multiple path = true.
Proof.
  unfold path_points, path_shaped.
  destruct (if multiple then index path 0 else Some path) as [[n | l] |]; split;
    try discriminate; try reflexivity.
  - intros (points & H). discriminate.
  - intros _. eexists. reflexivity.
  - intros (points & H). discriminate.
Qed.

Lemma mapM_returns {A B : Type} (f : A -> result B) (ok : A -> bool) (l : list A) :
  (forall a, (exists b, f a = Ok b) <-> ok a = true) ->
  (exists bs, mapM f l = Ok bs) <-> forallb ok l = true.
Proof.
  intros H. induction l as [| a l IH]; cbn.
  - split; [reflexivity | intros _; eexists; reflexivity].
  - rewrite andb_true_iff, <- IH, <- H. split.
    + intros (bs & E). destruct (f a) as [b |]; cbn in E; [| discriminate].
      destruct (mapM f l) as [bs' |]; cbn in E; [| discriminate]. eauto.
    + intros ((b & Eb) & (bs & Ebs)). rewrite Eb, Ebs. cbn. eauto.
Qed.

Lemma feature_arcs_shaped (f : Feature) :
  (exists new_arcs, feature_arcs f = Ok new_arcs) <-> feature_shaped f = true.
Proof.
  unfold feature_arcs, feature_shaped. destruct (geometry f) as [g |].
  - rewrite <- (mapM_returns _ _ _ (path_points_shaped (hasMultiplePaths g))). split.
    + intros (new_arcs & E). destruct (mapM _ _) as [pts |]; [eauto | discriminate].
    + intros (pts & E). rewrite E. cbn. eauto.
  - split; [intros (a & H) |]; discriminate.
Qed.

(** For coordinates nested over numbers (the values of the model, which
    hold no null or undefined element), [fromGeoJSON] returns a topology
    exactly on the inputs whose features all have a geometry with paths of
    the shape it reads; on any other such input it throws. *)
Lemma fromGeoJSON_returns (geoJSON : GeoJSON) (objectId : option string) :
  (exists topo, fromGeoJSON geoJSON objectId = Ok topo)
  <-> forallb feature_shaped (features geoJSON) = true.
Proof.
  rewrite <- (mapM_returns _ _ _ feature_arcs_shaped). split.
  - intros (topo & H). destruct (fromGeoJSON_arcs _ _ H) as (per & Hper & _). eauto.
  - intros (per & Hper). unfold fromGeoJSON.
    assert (H : forall arcs0, exists r, encode_features arcs0 (features geoJSON) = Ok r).
    { revert per Hper. induction (features geoJSON) as [| f fs IH]; intros per Hper arcs0; cbn.
      - eexists; reflexivity.
      - cbn in Hper. rewrite encode_feature_eq.
        destruct (feature_arcs f) as [new_arcs |] eqn:Ef; cbn in Hper; [| discriminate].
        destruct (mapM feature_arcs fs) as [per' |] eqn:Efs; cbn in Hper; [| discriminate].
        assert (Hg : exists g, geometry f = Some g).
        { unfold feature_arcs in Ef. destruct (geometry f); [eauto | discriminate]. }
        destruct Hg as (g & Hg). rewrite Hg. cbn.
        destruct (IH per' eq_refl (arcs0 ++ new_arcs)) as ([a gs] & E).
        rewrite E. cbn. eexists; reflexivity. }
    destruct (H []) as ([arcs1 gs] & E). rewrite E. cbn. eexists; reflexivity.
Qed.

(** C4. A feature with exactly one coordinate path gives the geometry
    [{type: "Polygon", id: feature.id, arcs: [[k]]}], where [k] is the index
    of its arc; a feature with more than one path gives
    [{type: "MultiPolygon", id: feature.id, arcs: [[[k]], [[k+1]], ...]}],
    one part per path, each holding the index of that path's arc.  The
    indices are those of the arcs the feature appends to [arcs]. *)
Theorem encode_feature_geometry
    (arcs0 : list Arc) (f : Feature) (arcs1 : list Arc) (g : TopoGeometry) :
  encode_feature arcs0 f = Ok (arcs1, g) ->
  exists geom new_arcs,
    geometry f = Some geom
    /\ feature_arcs f = Ok new_arcs
    /\ arcs1 = arcs0 ++ new_arcs
    /\ length new_arcs = length (coordinates geom)
    /\ (length (coordinates geom) = 1%nat ->
        g = {| type := "Polygon"; id := feature_id f;
               arcs := Rings [[length arcs0]] |})
    /\ ((1 < length (coordinates geom))%nat ->
        g = {| type := "MultiPolygon"; id := feature_id f;
               arcs := Parts (map (fun index => [[index]])
                                  (seq (length arcs0) (length (coordinates geom)))) |}).
Proof.
  rewrite encode_feature_eq. destruct (geometry f) as [geom |] eqn:Eg; [| discriminate].
  destruct (feature_arcs f) as [new_arcs |] eqn:Ea; cbn [bind]; [| discriminate].
  intros H. inversion H; subst; clear H. exists geom, new_arcs.
  assert (Hlen : length new_arcs = length (coordinates geom)).
  { rewrite (feature_arcs_length _ Ea). unfold path_count. now rewrite Eg. }
  repeat split; try reflexivity; try exact Hlen.
  - intros H1. unfold hasMultiplePaths. rewrite H1. reflexivity.
  - intros H1. unfold hasMultiplePaths. apply Nat.ltb_lt in H1. rewrite H1. reflexivity.
Qed.

Lemma encode_feature_geometry_witness :
  exists arcs1 g,
    encode_feature [[point2 (9, 9)]] (nth 1 (features example_geoJSON) {| feature_id := ""; geometry := None |})
    = Ok (arcs1, g)
    /\ g = {| type := "MultiPolygon"; id := "B"; arcs := Parts [[[1%nat]]; [[2%nat]]] |}
    /\ exists geom new_arcs,
         geometry (nth 1 (features example_geoJSON) {| feature_id := ""; geometry := None |}) = Some geom
         /\ feature_arcs (nth 1 (features example_geoJSON) {| feature_id := ""; geometry := None |}) = Ok new_arcs
         /\ arcs1 = [[point2 (9, 9)]] ++ new_arcs
         /\ length new_arcs = length (coordinates geom)
         /\ (length (coordinates geom) = 1%nat ->
             g = {| type := "Polygon"; id := "B"; arcs := Rings [[1%nat]] |})
         /\ ((1 < length (coordinates geom))%nat ->
             g = {| type := "MultiPolygon"; id := "B";
                    arcs := Parts (map (fun index => [[index]])
                                       (seq 1 (length (coordinates geom)))) |}).
Proof.
  eexists. eexists. split; [reflexivity |]. split; [reflexivity |].
  apply (@encode_feature_geometry [[point2 (9, 9)]]
           (nth 1 (features example_geoJSON) {| feature_id := ""; geometry := None |})).
  reflexivity.
Defined.

Lemma encode_arc_short (points : list value) :
  (length points < 2)%nat -> encode_arc points = points.
Proof.
  destruct points as [| p [| q rest]]; cbn [length]; intros H; [reflexivity | reflexivity | lia].
Qed.

Lemma mapM_path_points_first (parts : list (list value * list value)) :
  mapM (path_points true) (map (fun p => VArr (VArr (fst p) :: snd p)) parts)
  = Ok (map fst parts).
Proof.
  induction parts as [| p parts IH]; cbn; [reflexivity |].
  fold (map (fun p => VArr (VArr (fst p) :: snd p)) parts). now rewrite IH.
Qed.

(** C8, as amended.  [fromGeoJSON] validates nothing and raises no
    MalformedGeometryError.  A feature whose geometry has zero coordinate
    paths is encoded as [{type: "Polygon", id, arcs: [[]]}] and adds no arc.
    A feature whose single path is an array of fewer than 2 points is encoded
    as a Polygon whose arc is equal to the path (empty, or its single point
    itself).  In a feature of more than one path the points are read from
    [path[0]] in place of the path: when every [path[0]] is an array the
    feature is encoded as a MultiPolygon with the arc of each [path[0]], and
    an array [path[0]] of fewer than 2 entries gives an arc equal to it. *)
Theorem encode_feature_degenerate (arcs0 : list Arc) (fid ty : string) :
  encode_feature arcs0
    {| feature_id := fid; geometry := Some {| geo_type := ty; coordinates := [] |} |}
  = Ok (arcs0, {| type := "Polygon"; id := fid; arcs := Rings [[]] |})
  /\ (forall points,
        (length points < 2)%nat ->
        encode_arc points = points
        /\ encode_feature arcs0
             {| feature_id := fid;
                geometry := Some {| geo_type := ty; coordinates := [VArr points] |} |}
           = Ok (arcs0 ++ [points],
                 {| type := "Polygon"; id := fid; arcs := Rings [[length arcs0]] |}))
  /\ (forall parts : list (list value * list value),
        (2 <= length parts)%nat ->
        encode_feature arcs0
          {| feature_id := fid;
             geometry :=
               Some {| geo_type := ty;
                       coordinates := map (fun p => VArr (VArr (fst p) :: snd p)) parts |} |}
        = Ok (arcs0 ++ map (fun p => encode_arc (fst p)) parts,
              {| type := "MultiPolygon"; id := fid;
                 arcs := Parts (map (fun index => [[index]])
                                    (seq (length arcs0) (length parts))) |})
        /\ forall p, In p parts -> (length (fst p) < 2)%nat -> encode_arc (fst p) = fst p).
Proof.
  split; [| split].
  - rewrite encode_feature_eq. cbn. now rewrite app_nil_r.
  - intros points H. split; [apply encode_arc_short, H |].
    rewrite encode_feature_eq. cbn. now rewrite (encode_arc_short _ H).
  - intros parts Hlen. split; [| intros p _ Hp; now apply encode_arc_short].
    rewrite encode_feature_eq. cbn [geometry]. unfold feature_arcs. cbn [geometry].
    unfold hasMultiplePaths. cbn [coordinates]. rewrite length_map.
    assert (E : (1 <? length parts)%nat = true) by (apply Nat.ltb_lt; lia).
    rewrite E, mapM_path_points_first. cbn [bind]. now rewrite map_map.
Qed.

Lemma encode_feature_degenerate_witness :
  (encode_arc [point2 (1, 2)] = [point2 (1, 2)]
   /\ encode_feature [] {| feature_id := "A";
                           geometry := Some {| geo_type := "Polygon";
                                               coordinates := [VArr [point2 (1, 2)]] |} |}
      = Ok ([] ++ [[point2 (1, 2)]],
            {| type := "Polygon"; id := "A"; arcs := Rings [[0%nat]] |}))
  /\ (encode_feature []
        {| feature_id := "A";
           geometry :=
             Some {| geo_type := "Polygon";
                     coordinates :=
                       map (fun p => VArr (VArr (fst p) :: snd p))
                           [([point2 (1, 2)], []); ([], [VArr []])] |} |}
      = Ok ([] ++ map (fun p => encode_arc (fst p)) [([point2 (1, 2)], []); ([], [VArr []])],
            {| type := "MultiPolygon"; id := "A";
               arcs := Parts (map (fun index => [[index]]) (seq 0 2)) |})
      /\ forall p, In p [([point2 (1, 2)], []); ([], [VArr []])] ->
                   (length (fst p) < 2)%nat -> encode_arc (fst p) = fst p).
Proof.
  split.
  - apply (proj1 (proj2 (encode_feature_degenerate [] "A" "Polygon")) [point2 (1, 2)]).
    cbn. lia.
  - apply (proj2 (proj2 (encode_feature_degenerate [] "A" "Polygon"))
             [([point2 (1, 2)], []); ([], [VArr []])]).
    cbn. lia.
Defined.

(** C8 as the specification states it fails: a feature with no coordinate
    path, one whose path is empty and one whose path has a single point are
    all encoded without any error. *)
Lemma fromGeoJSON_accepts_degenerate :
  fromGeoJSON
    {| features :=
         [ {| feature_id := "A";
              geometry := Some {| geo_type := "Polygon"; coordinates := [] |} |};
           {| feature_id := "B";
              geometry := Some {| geo_type := "Polygon"; coordinates := [VArr []] |} |};
           {| feature_id := "C";
              geometry := Some {| geo_type := "Polygon";
                                  coordinates := [VArr [point2 (1, 2)]] |} |} ] |}
    None
  = Ok {| topology_type := "Topology";
          transform := {| scale := (Int 1, Int 1); translate := (Int 0, Int 0) |};
          objects :=
            [("states",
              {| collection_type := "GeometryCollection";
                 geometries :=
                   [ {| type := "Polygon"; id := "A"; arcs := Rings [[]] |};
                     {| type := "Polygon"; id := "B"; arcs := Rings [[0%nat]] |};
                     {| type := "Polygon"; id := "C"; arcs := Rings [[1%nat]] |} ] |})];
          topology_arcs := [ []; [point2 (1, 2)] ] |}.
Proof. reflexivity. Qed.

(** C10. The type of the output geometry depends on the number of entries
    of [feature.geometry.coordinates] alone: "MultiPolygon" when there is
    more than one, "Polygon" otherwise.  The declared type of the input
    geometry is never read.  So a feature declared "MultiPolygon" with
    exactly one part comes out as a "Polygon" whose arc is the delta
    encoding of the part itself, the part's rings standing where points
    are expected (the arc has one entry per ring, its entry 0 is the first
    ring and each later entry is the pair of differences of a ring and the
    ring before it), and not the encoding of the part's outer ring. *)
Theorem encode_feature_type_by_path_count :
  (forall arcs0 fid ty1 ty2 coords,
      encode_feature arcs0
        {| feature_id := fid; geometry := Some {| geo_type := ty1; coordinates := coords |} |}
      = encode_feature arcs0
          {| feature_id := fid; geometry := Some {| geo_type := ty2; coordinates := coords |} |})
  /\ (forall arcs0 f geom arcs1 g,
        geometry f = Some geom ->
        encode_feature arcs0 f = Ok (arcs1, g) ->
        type g = if (1 <? length (coordinates geom))%nat then "MultiPolygon" else "Polygon")
  /\ (forall arcs0 fid part,
        encode_feature arcs0
          {| feature_id := fid;
             geometry := Some {| geo_type := "MultiPolygon"; coordinates := [VArr part] |} |}
        = Ok (arcs0 ++ [encode_arc part],
              {| type := "Polygon"; id := fid; arcs := Rings [[length arcs0]] |})
        /\ length (encode_arc part) = length part
        /\ nth_error (encode_arc part) 0 = nth_error part 0
        /\ delta_encoded part (encode_arc part)).
Proof.
  split; [| split].
  - intros arcs0 fid ty1 ty2 coords. rewrite !encode_feature_eq. reflexivity.
  - intros arcs0 f geom arcs1 g Hg. rewrite encode_feature_eq, Hg.
    destruct (feature_arcs f); cbn [bind]; [| discriminate].
    intros H. inversion H. reflexivity.
  - intros arcs0 fid part. split.
    + rewrite encode_feature_eq. reflexivity.
    + pose proof (encode_arc_delta_encoded part) as Hd.
      destruct Hd as (Hlen & H0 & Hrest). repeat split; assumption.
Qed.

Lemma encode_feature_type_by_path_count_witness :
  type {| type := "Polygon"; id := "A"; arcs := Rings [[0%nat]] |}
  = if (1 <? length (coordinates example_single_part))%nat
    then "MultiPolygon" else "Polygon".
Proof.
  apply (proj1 (proj2 encode_feature_type_by_path_count)
           []
           {| feature_id := "A"; geometry := Some example_single_part |}
           example_single_part
           [[VArr (map point2 [(0, 0); (4, 0); (0, 0)])]]).
  - reflexivity.
  - reflexivity.
Defined.

End DeltaEncoderClaims.

(** ** Plain objects *)

Lemma mem_In (k : string) (l : list string) : mem k l = true <-> In k l.
Proof.
  unfold mem. rewrite existsb_exists. split.
  - intros (x & Hin & E). apply String.eqb_eq in E. now subst.
  - intros Hin. exists k. split; [exact Hin | apply String.eqb_refl].
Qed.

Lemma mem_false (k : string) (l : list string) : mem k l = false <-> ~ In k l.
Proof.
  rewrite <- mem_In. destruct (mem k l); split; intros H; congruence.
Qed.

Lemma mem_cons (k h : string) (l : list string) :
  mem k (h :: l) = String.eqb k h || mem k l.
Proof. reflexivity. Qed.

Lemma mem_app (k : string) (l1 l2 : list string) :
  mem k (l1 ++ l2) = mem k l1 || mem k l2.
Proof. unfold mem. apply existsb_app. Qed.

Section ObjectFacts.
Variable V : Type.
Implicit Types (o : JsObject V) (k : string) (v : V).

Lemma own_get_set_same k v o : own_get k (set k v o) = Some v.
Proof.
  induction o as [| [k' v'] o IH]; cbn.
  - now rewrite String.eqb_refl.
  - destruct (String.eqb k k') eqn:E; cbn; rewrite ?String.eqb_refl, ?E; auto.
Qed.

Lemma own_get_set_other k k' v o : k' <> k -> own_get k' (set k v o) = own_get k' o.
Proof.
  intros N. apply String.eqb_neq in N.
  induction o as [| [k0 v0] o IH]; cbn.
  - now rewrite N.
  - destruct (String.eqb k k0) eqn:E; cbn.
    + apply String.eqb_eq in E. subst k0. now rewrite N.
    + now rewrite IH.
Qed.

Lemma own_get_None k o : own_get k o = None <-> ~ In k (own_keys o).
Proof.
  unfold own_keys. induction o as [| [k' v'] o IH]; cbn; [tauto |].
  destruct (String.eqb k k') eqn:E.
  - apply String.eqb_eq in E. subst. split; [discriminate | tauto].
  - apply String.eqb_neq in E. rewrite IH. split; [intros H [H1 | H1]; auto | tauto].
Qed.

Lemma own_get_Some_In k v o : own_get k o = Some v -> In k (own_keys o).
Proof.
  intros H. destruct (in_dec string_dec k (own_keys o)) as [Hin | Hnin]; [exact Hin |].
  apply own_get_None in Hnin. congruence.
Qed.

Lemma own_keys_set_old k v o : In k (own_keys o) -> own_keys (set k v o) = own_keys o.
Proof.
  unfold own_keys. induction o as [| [k' v'] o IH]; cbn; [tauto |].
  destruct (String.eqb k k') eqn:E; cbn.
  - apply String.eqb_eq in E. now subst.
  - apply String.eqb_neq in E. intros [H | H]; [congruence | now rewrite IH].
Qed.

Lemma own_keys_set_new k v o : ~ In k (own_keys o) -> own_keys (set k v o) = own_keys o ++ [k].
Proof.
  unfold own_keys. induction o as [| [k' v'] o IH]; cbn; [reflexivity |].
  intros N. destruct (String.eqb k k') eqn:E; cbn.
  - apply String.eqb_eq in E. subst. tauto.
  - rewrite IH; tauto.
Qed.

Lemma set_same_value k v o : own_get k o = Some v -> set k v o = o.
Proof.
  induction o as [| [k' v'] o IH]; cbn; [discriminate |].
  destruct (String.eqb k k') eqn:E.
  - apply String.eqb_eq in E. intros H. inversion H. now subst.
  - intros H. now rewrite IH.
Qed.

End ObjectFacts.

(** *** The order of first appearance *)

Lemma first_appearances_ext (l : list string) :
  forall s1 s2, (forall k, mem k s1 = mem k s2) ->
                first_appearances s1 l = first_appearances s2 l.
Proof.
  induction l as [| k l IH]; intros s1 s2 H; cbn; [reflexivity |].
  rewrite <- (H k). destruct (mem k s1).
  - now apply IH.
  - f_equal. apply IH. intros k'. now rewrite !mem_cons, H.
Qed.

Lemma first_appearances_app (l1 l2 seen : list string) :
  first_appearances seen (l1 ++ l2)
  = first_appearances seen l1
      ++ first_appearances (seen ++ first_appearances seen l1) l2.
Proof.
  revert seen. induction l1 as [| k l1 IH]; intros seen; cbn.
  - now rewrite app_nil_r.
  - destruct (mem k seen) eqn:E; [apply IH |].
    cbn. f_equal. rewrite IH. f_equal. apply first_appearances_ext.
    intros k'. repeat (rewrite mem_app || rewrite mem_cons).
    destruct (String.eqb k' k), (mem k' seen), (mem k' (first_appearances (k :: seen) l1));
      reflexivity.
Qed.

Lemma first_appearances_In (l seen : list string) (k : string) :
  In k (first_appearances seen l) <-> In k l /\ ~ In k seen.
Proof.
  revert seen. induction l as [| h l IH]; intros seen; cbn; [tauto |].
  destruct (mem h seen) eqn:E.
  - apply mem_In in E. rewrite IH. split; [tauto |].
    intros [[-> | H] N]; tauto.
  - apply mem_false in E. cbn. rewrite IH. cbn. split.
    + intros [-> | (H & N)]; tauto.
    + intros [[-> | H] N]; [tauto |].
      destruct (string_dec h k) as [-> | D]; [tauto |]. right. tauto.
Qed.

Lemma first_appearances_NoDup (l seen : list string) : NoDup (first_appearances seen l).
Proof.
  revert seen. induction l as [| h l IH]; intros seen; cbn; [constructor |].
  destruct (mem h seen); [apply IH |].
  constructor; [| apply IH]. rewrite first_appearances_In. cbn. tauto.
Qed.

Lemma first_appearances_NoDup_id (l seen : list string) :
  NoDup l -> (forall k, In k l -> ~ In k seen) -> first_appearances seen l = l.
Proof.
  revert seen. induction l as [| h l IH]; intros seen Hnd Hdis; cbn; [reflexivity |].
  inversion Hnd as [| ? ? Hh Hl]; subst.
  assert (E : mem h seen = false) by (apply mem_false, Hdis; now left).
  rewrite E. f_equal. apply IH; [exact Hl |].
  intros k Hk [<- | Hs]; [tauto |]. apply (Hdis k); [now right | exact Hs].
Qed.

(** *** The order of [Object.keys] *)

Lemma index_keys_snd (ks : list string) :
  map snd (index_keys ks) = filter is_array_index ks.
Proof.
  induction ks as [| k ks IH]; cbn; [reflexivity |].
  unfold is_array_index. destruct (array_index k); cbn; now rewrite IH.
Qed.

Lemma insert_index_perm (k : N * string) (l : list (N * string)) :
  Permutation (insert_index k l) (k :: l).
Proof.
  induction l as [| h l IH]; cbn; [reflexivity |].
  destruct (fst k <=? fst h)%N; [reflexivity |].
  rewrite IH. apply perm_swap.
Qed.

Lemma sort_indices_perm (l : list (N * string)) : Permutation (sort_indices l) l.
Proof.
  induction l as [| h l IH]; cbn; [reflexivity |].
  rewrite insert_index_perm. now constructor.
Qed.

Lemma insert_index_sorted (k : N * string) (l : list (N * string)) :
  Sorted (fun a b => (fst a <= fst b)%N) l ->
  Sorted (fun a b => (fst a <= fst b)%N) (insert_index k l).
Proof.
  induction l as [| h l IH]; cbn; intros Hs.
  - repeat constructor.
  - destruct (fst k <=? fst h)%N eqn:E.
    + apply N.leb_le in E. constructor; [exact Hs | now constructor].
    + apply N.leb_gt in E. inversion Hs as [| ? ? Hl Hh]; subst.
      constructor; [now apply IH |].
      destruct l as [| h' l]; cbn.
      * constructor. lia.
      * destruct (fst k <=? fst h')%N; constructor; [lia |].
        now inversion Hh.
Qed.

(** The array indices among the keys are listed in ascending order. *)
Lemma sort_indices_sorted (l : list (N * string)) :
  Sorted (fun a b => (fst a <= fst b)%N) (sort_indices l).
Proof.
  induction l as [| h l IH]; cbn; [constructor | now apply insert_index_sorted].
Qed.

Lemma filter_split_perm {A : Type} (f : A -> bool) (l : list A) :
  Permutation (filter f l ++ filter (fun a => negb (f a)) l) l.
Proof.
  induction l as [| a l IH]; cbn; [reflexivity |].
  destruct (f a); cbn.
  - now constructor.
  - rewrite <- Permutation_middle. now constructor.
Qed.

Lemma key_order_perm (ks : list string) : Permutation (key_order ks) ks.
Proof.
  unfold key_order.
  rewrite (Permutation_map snd (sort_indices_perm (index_keys ks))), index_keys_snd.
  apply filter_split_perm.
Qed.

Lemma key_order_In (ks : list string) (k : string) : In k (key_order ks) <-> In k ks.
Proof.
  split; apply Permutation_in; [apply key_order_perm | symmetry; apply key_order_perm].
Qed.

(** Where no key is an array index, [Object.keys] lists the keys in the
    order of their creation. *)
Lemma key_order_no_index (ks : list string) :
  (forall k, In k ks -> is_array_index k = false) -> key_order ks = ks.
Proof.
  intros H. unfold key_order.
  assert (E1 : index_keys ks = []).
  { induction ks as [| k ks IH]; cbn; [reflexivity |].
    assert (Hk := H k (or_introl eq_refl)). unfold is_array_index in Hk.
    destruct (array_index k); [discriminate |].
    apply IH. intros k' Hin. apply H. now right. }
  rewrite E1. cbn.
  induction ks as [| k ks IH]; cbn; [reflexivity |].
  rewrite (H k (or_introl eq_refl)). cbn. f_equal. apply IH.
  - intros k' Hin. apply H. now right.
  - cbn in E1. destruct (array_index k); [discriminate | exact E1].
Qed.

(** ** The aggregation of the tiles by region *)

Section AggregationFacts.
Import TopoExporter.
Variable Metric : Type.
Implicit Types (o : JsObject StateTiles) (tiles : list Tile)
  (dataset : list (string * Metric)).

Lemma tiles_of_region_nil k tiles :
  tiles_of_region k tiles = [] <-> ~ In k (map id tiles).
Proof.
  unfold tiles_of_region. induction tiles as [| t tiles IH]; cbn; [tauto |].
  destruct (String.eqb (id t) k) eqn:E.
  - apply String.eqb_eq in E. split; [discriminate | tauto].
  - apply String.eqb_neq in E. rewrite IH. tauto.
Qed.

Lemma add_tile_spec o (t : Tile) :
  (forall k, own_get k o <> Some None) ->
  inherited (id t) = false ->
  exists o',
    add_tile o t = Ok o'
    /\ own_keys o' = own_keys o ++ first_appearances (own_keys o) [id t]
    /\ own_get (id t) o' = Some (Some (region_array o (id t) ++ [t]))
    /\ forall k, k <> id t -> own_get k o' = own_get k o.
Proof.
  intros Hinv Hinh. unfold add_tile, region_array, StateTiles in *.
  destruct (own_get (id t) o) as [[l |] |] eqn:E; cbv beta iota zeta.
  - eexists. split; [rewrite E; reflexivity |].
    assert (Hin : In (id t) (own_keys o)) by (eapply own_get_Some_In, E).
    repeat split.
    + rewrite own_keys_set_old by exact Hin. cbn.
      apply mem_In in Hin. rewrite Hin. now rewrite app_nil_r.
    + apply own_get_set_same.
    + intros k N. now apply own_get_set_other.
  - now destruct (Hinv (id t)).
  - assert (Hnin : ~ In (id t) (own_keys o)) by (apply own_get_None, E).
    eexists. split; [rewrite Hinh; cbn [negb]; rewrite own_get_set_same; reflexivity |].
    repeat split.
    + rewrite own_keys_set_old, own_keys_set_new by
        (try exact Hnin; eapply own_get_Some_In, own_get_set_same).
      cbn. apply mem_false in Hnin. now rewrite Hnin.
    + apply own_get_set_same.
    + intros k N. rewrite !own_get_set_other by exact N. reflexivity.
Qed.

Lemma add_tiles_spec tiles :
  forall o,
    (forall k, own_get k o <> Some None) ->
    (forall t, In t tiles -> inherited (id t) = false) ->
    exists o',
      add_tiles o tiles = Ok o'
      /\ own_keys o' = own_keys o ++ first_appearances (own_keys o) (map id tiles)
      /\ forall k, own_get k o'
                   = match tiles_of_region k tiles with
                     | [] => own_get k o
                     | ts => Some (Some (region_array o k ++ ts))
                     end.
Proof.
  induction tiles as [| t rest IH]; intros o Hinv Hinh.
  - exists o. cbn. now rewrite app_nil_r.
  - destruct (@add_tile_spec o t Hinv (Hinh t (or_introl eq_refl)))
      as (o1 & E1 & K1 & G1 & O1).
    assert (Hinv1 : forall k, own_get k o1 <> Some None).
    { intros k. destruct (string_dec k (id t)) as [-> | N].
      - rewrite G1. discriminate.
      - rewrite (O1 k N). apply Hinv. }
    destruct (IH o1 Hinv1 (fun t' H => Hinh t' (or_intror H))) as (o' & E' & K' & G').
    exists o'. cbn [add_tiles]. rewrite E1. cbn [bind]. split; [exact E' |]. split.
    + rewrite K', K1, <- app_assoc. f_equal.
      change (map id (t :: rest)) with ([id t] ++ map id rest).
      now rewrite first_appearances_app.
    + intros k. rewrite G'. unfold tiles_of_region. cbn [filter].
      fold (tiles_of_region k rest).
      destruct (String.eqb (id t) k) eqn:E.
      * apply String.eqb_eq in E. subst k. unfold region_array at 1. rewrite G1.
        destruct (tiles_of_region (id t) rest); [reflexivity |].
        now rewrite <- app_assoc.
      * apply String.eqb_neq in E. unfold region_array. rewrite (O1 k) by congruence.
        reflexivity.
Qed.

Lemma add_entry_spec o (d : string * Metric) :
  inherited (fst d) = false ->
  own_keys (add_entry o d) = own_keys o ++ first_appearances (own_keys o) [fst d]
  /\ forall k, own_get k (add_entry o d)
               = match own_get k o with
                 | Some v => Some v
                 | None => if String.eqb k (fst d) then Some None else None
                 end.
Proof.
  intros Hinh. unfold add_entry, StateTiles in *.
  destruct (own_get (fst d) o) as [[l |] |] eqn:E; cbv beta iota zeta.
  - assert (Hin : In (fst d) (own_keys o)) by (eapply own_get_Some_In, E).
    apply mem_In in Hin. cbn. rewrite Hin, app_nil_r. split; [reflexivity |].
    intros k. destruct (own_get k o) eqn:Ek; [reflexivity |].
    destruct (String.eqb k (fst d)) eqn:Ed; [| reflexivity].
    apply String.eqb_eq in Ed. congruence.
  - rewrite (set_same_value _ _ E).
    assert (Hin : In (fst d) (own_keys o)) by (eapply own_get_Some_In, E).
    apply mem_In in Hin. cbn. rewrite Hin, app_nil_r. split; [reflexivity |].
    intros k. destruct (own_get k o) eqn:Ek; [reflexivity |].
    destruct (String.eqb k (fst d)) eqn:Ed; [| reflexivity].
    apply String.eqb_eq in Ed. congruence.
  - rewrite Hinh. cbn [negb]. cbv iota.
    assert (Hnin : ~ In (fst d) (own_keys o)) by (apply own_get_None, E).
    split.
    + rewrite own_keys_set_new by exact Hnin. cbn.
      apply mem_false in Hnin. now rewrite Hnin.
    + intros k. destruct (String.eqb k (fst d)) eqn:Ed.
      * apply String.eqb_eq in Ed. subst k. now rewrite own_get_set_same, E.
      * apply String.eqb_neq in Ed. rewrite own_get_set_other by exact Ed.
        now destruct (own_get k o).
Qed.

Lemma add_entries_spec dataset :
  forall o,
    (forall d, In d dataset -> inherited (fst d) = false) ->
    own_keys (fold_left (@add_entry Metric) dataset o)
    = own_keys o ++ first_appearances (own_keys o) (map fst dataset)
    /\ forall k, own_get k (fold_left (@add_entry Metric) dataset o)
                 = match own_get k o with
                   | Some v => Some v
                   | None => if mem k (map fst dataset) then Some None else None
                   end.
Proof.
  induction dataset as [| d rest IH]; intros o Hinh.
  - cbn. rewrite app_nil_r. split; [reflexivity |]. intros k. now destruct (own_get k o).
  - destruct (@add_entry_spec o d (Hinh d (or_introl eq_refl))) as (K1 & G1).
    destruct (IH (add_entry o d) (fun d' H => Hinh d' (or_intror H))) as (K' & G').
    cbn [fold_left]. split.
    + rewrite K', K1, <- app_assoc. f_equal.
      change (map fst (d :: rest)) with ([fst d] ++ map fst rest).
      now rewrite first_appearances_app.
    + intros k. rewrite G', G1. cbn [map]. rewrite mem_cons.
      destruct (own_get k o); [reflexivity |].
      destruct (String.eqb k (fst d)); reflexivity.
Qed.

(** The aggregation in closed form. *)
Lemma aggregate_spec tiles dataset :
  (forall t, In t tiles -> inherited (id t) = false) ->
  (forall d, In d dataset -> inherited (fst d) = false) ->
  exists tilesByState,
    aggregate tiles dataset = Ok tilesByState
    /\ own_keys tilesByState = first_appearances [] (map id tiles ++ map fst dataset)
    /\ forall k, own_get k tilesByState
                 = match tiles_of_region k tiles with
                   | [] => if mem k (map fst dataset) then Some None else None
                   | ts => Some (Some ts)
                   end.
Proof.
  intros Ht Hd.
  destruct (@add_tiles_spec tiles [] (fun k => ltac:(discriminate)) Ht) as (o1 & E1 & K1 & G1).
  destruct (@add_entries_spec dataset o1 Hd) as (K2 & G2).
  exists (fold_left (@add_entry Metric) dataset o1). unfold aggregate. rewrite E1. cbn [bind].
  split; [reflexivity |]. split.
  - rewrite K2, K1. cbn [own_keys map app]. now rewrite first_appearances_app.
  - intros k. rewrite G2, G1. cbn [own_get]. unfold region_array. cbn [own_get app].
    destruct (tiles_of_region k tiles); reflexivity.
Qed.

End AggregationFacts.

(** ** The exporter, claim by claim *)

Section AggregationClaims.
Import TopoExporter.

(** C5, as amended.  For tiles and a dataset whose region ids are not names
    that a plain object inherits from [Object.prototype], the aggregation
    maps each region id occurring in the tiles to the list of its tiles in
    input order, maps each dataset id without tiles to [null], and holds
    every dataset id exactly once.  [Object.keys] lists the ids that are
    array indices first, in ascending numeric order, and then the other ids
    in insertion order (first appearance in the tiles, then the dataset-only
    ids in dataset order); where no id is an array index, that is insertion
    order. *)
Theorem aggregate_by_region (Metric : Type) (tiles : list Tile)
    (dataset : list (string * Metric)) :
  (forall t, In t tiles -> inherited (id t) = false) ->
  (forall d, In d dataset -> inherited (fst d) = false) ->
  exists tilesByState,
    aggregate tiles dataset = Ok tilesByState
    /\ (forall k, In k (map id tiles) ->
                  own_get k tilesByState = Some (Some (tiles_of_region k tiles)))
    /\ (forall k, In k (map fst dataset) -> ~ In k (map id tiles) ->
                  own_get k tilesByState = Some None)
    /\ (forall k, In k (map fst dataset) ->
                  count_occ string_dec (Object_keys tilesByState) k = 1%nat)
    /\ Object_keys tilesByState
       = key_order (first_appearances [] (map id tiles ++ map fst dataset))
    /\ ((forall k, In k (map id tiles ++ map fst dataset) -> is_array_index k = false) ->
        Object_keys tilesByState
        = first_appearances [] (map id tiles ++ map fst dataset)).
Proof.
  intros Ht Hd. destruct (aggregate_spec tiles dataset Ht Hd) as (o & E & K & G).
  exists o. split; [exact E |]. repeat split.
  - intros k Hk. rewrite G. destruct (tiles_of_region k tiles) eqn:Et; [| reflexivity].
    apply tiles_of_region_nil in Et. tauto.
  - intros k Hk Hn. rewrite G. apply tiles_of_region_nil in Hn. rewrite Hn.
    apply mem_In in Hk. now rewrite Hk.
  - intros k Hk. apply NoDup_count_occ'.
    + apply (Permutation_NoDup (l := own_keys o)); [symmetry; apply key_order_perm |].
      rewrite K. apply first_appearances_NoDup.
    + unfold Object_keys. rewrite key_order_In, K, first_appearances_In, in_app_iff.
      cbn. tauto.
  - unfold Object_keys. now rewrite K.
  - intros Hidx. unfold Object_keys. rewrite K. apply key_order_no_index.
    intros k Hk. apply Hidx. now apply first_appearances_In in Hk.
Qed.

Lemma aggregate_by_region_witness :
  exists tilesByState,
    aggregate [example_tile "A" 0 0; example_tile "C" 1 0; example_tile "A" 0 1]
              [("A", 10); ("B", 20)]
    = Ok tilesByState
    /\ Object_keys tilesByState = ["A"; "C"; "B"]
    /\ own_get "A" tilesByState = Some (Some [example_tile "A" 0 0; example_tile "A" 0 1])
    /\ own_get "B" tilesByState = Some None.
Proof.
  destruct (@aggregate_by_region Z
              [example_tile "A" 0 0; example_tile "C" 1 0; example_tile "A" 0 1]
              [("A", 10); ("B", 20)])
    as (o & E & Htiles & Hnull & _ & _ & Horder).
  - intros t [<- | [<- | [<- | []]]]; reflexivity.
  - intros d [<- | [<- | []]]; reflexivity.
  - exists o. split; [exact E |]. split; [| split].
    + rewrite Horder; [reflexivity |].
      intros k [<- | [<- | [<- | [<- | [<- | []]]]]]; reflexivity.
    + apply (Htiles "A"). cbn. tauto.
    + apply (Hnull "B").
      * cbn. tauto.
      * cbn. intros [H | [H | [H | []]]]; discriminate H.
Defined.

(** C5 as the specification states it fails: the tiles name region "2"
    before region "1", yet [Object.keys] lists "1" before "2". *)
Lemma aggregate_keys_not_in_insertion_order :
  exists tilesByState,
    aggregate [example_tile "2" 0 0; example_tile "1" 1 0] (@nil (string * Z))
    = Ok tilesByState
    /\ own_keys tilesByState = ["2"; "1"]
    /\ Object_keys tilesByState = ["1"; "2"]
    /\ Object_keys tilesByState <> first_appearances [] ["2"; "1"].
Proof.
  eexists. split; [reflexivity |]. split; [reflexivity |]. split; [reflexivity |].
  vm_compute. intros H. discriminate H.
Qed.

End AggregationClaims.

Section ExporterFacts.
Import TopoExporter.
Context {Center Coord Dimensions Name Metric Geography Label Version TopoJSON : Type}.
Variable C : Collaborators Center Coord Dimensions Name Metric Geography Version TopoJSON.
Implicit Types (o : JsObject StateTiles) (tiles : list Tile)
  (dataset : list (string * Metric)) (maxTileY : number).

Lemma add_tile_nonempty o (t : Tile) o' :
  (forall k, own_get k o <> Some (Some [])) ->
  add_tile o t = Ok o' ->
  forall k, own_get k o' <> Some (Some []).
Proof.
  intros Hinv. unfold add_tile, StateTiles in *.
  set (o1 := if match own_get (id t) o with
                | Some (Some _) => false
                | Some None => true
                | None => negb (inherited (id t))
                end
             then set (id t) (Some []) o else o).
  assert (H1 : forall k, k <> id t -> own_get k o1 = own_get k o).
  { intros k N. unfold o1. destruct (match own_get (id t) o with
                                      | Some (Some _) => false
                                      | Some None => true
                                      | None => negb (inherited (id t))
                                      end); [now apply own_get_set_other | reflexivity]. }
  cbv zeta. fold o1. destruct (own_get (id t) o1) as [[l |] |]; try discriminate.
  intros H. inversion H; subst; clear H. intros k.
  destruct (string_dec k (id t)) as [-> | N].
  - rewrite own_get_set_same. intros H. inversion H as [H0].
    now destruct l.
  - rewrite own_get_set_other, H1 by exact N. apply Hinv.
Qed.

Lemma add_tiles_nonempty tiles :
  forall o o',
    (forall k, own_get k o <> Some (Some [])) ->
    add_tiles o tiles = Ok o' ->
    forall k, own_get k o' <> Some (Some []).
Proof.
  induction tiles as [| t rest IH]; intros o o' Hinv; cbn.
  - intros H. now inversion H; subst.
  - destruct (add_tile o t) as [o1 |] eqn:E; cbn; [| discriminate].
    apply IH. eapply add_tile_nonempty; eauto.
Qed.

Lemma add_entry_nonempty o (d : string * Metric) :
  (forall k, own_get k o <> Some (Some [])) ->
  forall k, own_get k (add_entry o d) <> Some (Some []).
Proof.
  intros Hinv k. unfold add_entry.
  destruct (match own_get (fst d) o with
            | Some (Some _) => false
            | Some None => true
            | None => negb (inherited (fst d))
            end); [| apply Hinv].
  destruct (string_dec k (fst d)) as [-> | N].
  - rewrite own_get_set_same. discriminate.
  - rewrite own_get_set_other by exact N. apply Hinv.
Qed.

(** A region of the aggregation never holds an empty array: a region
    without tiles holds [null]. *)
Lemma aggregate_nonempty tiles dataset o :
  aggregate tiles dataset = Ok o ->
  forall k, own_get k o <> Some (Some []).
Proof.
  unfold aggregate. destruct (add_tiles [] tiles) as [o1 |] eqn:E; cbn; [| discriminate].
  intros H. inversion H; subst; clear H.
  assert (H1 : forall k, own_get k o1 <> Some (Some [])).
  { eapply add_tiles_nonempty; [| exact E]. intros k. discriminate. }
  clear E. revert o1 H1. induction dataset as [| d rest IH]; intros o1 H1; cbn; [exact H1 |].
  apply IH. now apply add_entry_nonempty.
Qed.

Lemma hexagon_ring_closed maxTileY (tile : Tile) (ring : Ring Coord) :
  hexagon_ring C maxTileY tile = Ok ring -> closed ring.
Proof.
  unfold hexagon_ring. cbv zeta.
  destruct (getPointsAround C _) as [| [px py] rest]; [discriminate |].
  intros H. inversion H. exists (px, py), rest. reflexivity.
Qed.

Lemma make_geometry_Some maxTileY (stateTiles : list Tile) (g : option (Geometry Coord)) :
  make_geometry C maxTileY (Some stateTiles) = Ok g ->
  exists rings,
    mapM (hexagon_ring C maxTileY) stateTiles = Ok rings
    /\ length rings = length stateTiles
    /\ Forall closed rings
    /\ (length stateTiles = 1%nat -> g = Some (Polygon rings))
    /\ (length stateTiles <> 1%nat ->
        g = Some (MultiPolygon (map (fun ring => [ring]) rings))).
Proof.
  unfold make_geometry.
  destruct (mapM (hexagon_ring C maxTileY) stateTiles) as [rings |] eqn:E; cbn [bind];
    [| discriminate].
  intros H. inversion H; subst; clear H. exists rings.
  assert (Hlen : length rings = length stateTiles) by (eapply mapM_length, E).
  split; [reflexivity |]. split; [exact Hlen |]. split; [| split].
  - apply mapM_Forall2 in E. clear Hlen.
    induction E as [| t r ts rs Hr _ IH]; constructor; [| exact IH].
    eapply hexagon_ring_closed, Hr.
  - intros H1. rewrite Hlen, H1. reflexivity.
  - intros H1. rewrite Hlen. apply Nat.eqb_neq in H1. rewrite H1. reflexivity.
Qed.

Lemma make_feature_Ok maxTileY (geoCodeToName : string -> option Name) dataset o
    (stateId : string) (feature : Feature Coord Name Metric) :
  make_feature C maxTileY geoCodeToName dataset o stateId = Ok feature ->
  exists stateTiles d,
    own_get stateId o = Some stateTiles
    /\ make_geometry C maxTileY stateTiles = Ok (geometry feature)
    /\ feature_type feature = "Feature"
    /\ feature_id feature = stateId
    /\ geoCodeToName stateId = Some (name (properties feature))
    /\ find (fun d => String.eqb (fst d) stateId) dataset = Some d
    /\ tilegramValue (properties feature) = snd d.
Proof.
  unfold make_feature. destruct (own_get stateId o) as [stateTiles |]; [| discriminate].
  destruct (make_geometry C maxTileY stateTiles) as [g |] eqn:Eg; cbn [bind]; [| discriminate].
  destruct (geoCodeToName stateId) as [n |]; [| discriminate].
  destruct (find _ dataset) as [d |]; [| discriminate].
  intros H. inversion H; subst; clear H. exists stateTiles, d. cbn.
  repeat split; try reflexivity. exact Eg.
Qed.

Lemma make_feature_lookup_failure maxTileY (geoCodeToName : string -> option Name)
    dataset o (stateId : string) :
  geoCodeToName stateId = None \/ ~ In stateId (map fst dataset) ->
  make_feature C maxTileY geoCodeToName dataset o stateId = Throw TypeError.
Proof.
  intros H. unfold make_feature. destruct (own_get stateId o) as [stateTiles |]; [| reflexivity].
  destruct (make_geometry C maxTileY stateTiles) as [g | []]; cbn [bind]; [| reflexivity].
  destruct (geoCodeToName stateId) as [n |] eqn:En; [| reflexivity].
  destruct (find _ dataset) as [d |] eqn:Ed; [| reflexivity].
  destruct H as [H | H]; [discriminate |].
  apply find_some in Ed. destruct Ed as (Hin & Heq). apply String.eqb_eq in Heq.
  destruct H. rewrite <- Heq. now apply in_map.
Qed.

End ExporterFacts.

Lemma mapM_ext_in {A B : Type} (f g : A -> result B) (l : list A) :
  (forall a, In a l -> f a = g a) -> mapM f l = mapM g l.
Proof.
  induction l as [| a l IH]; intros H; cbn; [reflexivity |].
  rewrite (H a (or_introl eq_refl)), IH; [reflexivity |].
  intros a' Hin. apply H. now right.
Qed.

Lemma mapM_exists {A B : Type} (f : A -> result B) (P : A -> B -> Prop) (l : list A) :
  (forall a, In a l -> exists b, f a = Ok b /\ P a b) ->
  exists bs, mapM f l = Ok bs /\ Forall2 P l bs.
Proof.
  induction l as [| a l IH]; intros H; cbn.
  - exists []. split; [reflexivity | constructor].
  - destruct (H a (or_introl eq_refl)) as (b & Eb & Pb).
    destruct (IH (fun a' Hin => H a' (or_intror Hin))) as (bs & Ebs & Pbs).
    exists (b :: bs). rewrite Eb, Ebs. split; [reflexivity | now constructor].
Qed.

Section ExporterClaims.
Import TopoExporter.
Context {Center Coord Dimensions Name Metric Geography Label Version TopoJSON : Type}.
Variable C : Collaborators Center Coord Dimensions Name Metric Geography Version TopoJSON.
Implicit Types (tiles : list Tile) (dataset : list (string * Metric))
  (geography : Geography) (metricPerTile : Label).

(** C6. In [toTopoJson], the features are those of the regions of the
    aggregation, in the order of [Object.keys].  A region never holds an empty
    array: a region without tiles holds [null], and its feature has geometry
    [null] with the region's id and properties.  A region of exactly 1 tile
    gives a "Polygon" of the tile's closed ring; a region of N >= 2 tiles gives
    a "MultiPolygon" of exactly N parts, the i-th being the closed ring of the
    i-th tile. *)
Theorem toTopoJson_geometry_by_tile_count tiles dataset geography
    (features : list (Feature Coord Name Metric)) :
  toTopoJson_features C tiles dataset geography = Ok features ->
  exists tilesByState,
    aggregate tiles dataset = Ok tilesByState
    /\ Forall2 (fun stateId feature =>
                  exists stateTiles,
                    own_get stateId tilesByState = Some stateTiles
                    /\ stateTiles <> Some []
                    /\ feature_of_region C (max_tile_y tiles)
                         (getGeoCodeHash C geography) dataset stateTiles stateId feature)
               (Object_keys tilesByState) features.
Proof.
  unfold toTopoJson_features. cbv zeta.
  destruct (aggregate tiles dataset) as [o |] eqn:Ea; cbn [bind]; [| discriminate].
  intros H. exists o. split; [reflexivity |].
  apply mapM_Forall2 in H. revert H. apply Forall2_impl. intros stateId feature Hf.
  apply make_feature_Ok in Hf.
  destruct Hf as (stateTiles & d & Hget & Hgeo & _ & Hid & Hname & Hfind & Hval).
  exists stateTiles. split; [exact Hget |]. split.
  - intros ->. exact (@aggregate_nonempty _ _ _ _ Ea stateId Hget).
  - unfold feature_of_region. split; [exact Hid |]. split; [exact Hname |].
    split; [now exists d |].
    destruct stateTiles as [ts |].
    + apply make_geometry_Some in Hgeo.
      destruct Hgeo as (rings & Hr & Hlen & Hclosed & H1 & Hn).
      exists rings. repeat split; try assumption.
      intros H2. apply Hn. lia.
    + cbn in Hgeo. now inversion Hgeo.
Qed.

(** C7. When some region id of the aggregation has no entry in the
    geography's name table, or none in the dataset, [toTopoJson] raises an
    error (the TypeError of reading a property of [undefined], which the
    specification calls LookupError) and returns nothing. *)
Theorem toTopoJson_lookup_failure tiles dataset metricPerTile geography
    (tilesByState : JsObject StateTiles) (stateId : string) :
  aggregate tiles dataset = Ok tilesByState ->
  In stateId (Object_keys tilesByState) ->
  getGeoCodeHash C geography stateId = None \/ ~ In stateId (map fst dataset) ->
  toTopoJson C tiles dataset metricPerTile geography = Throw TypeError.
Proof.
  intros Ea Hin Hlookup. unfold toTopoJson, toTopoJson_features. cbv zeta.
  rewrite Ea. cbn [bind].
  rewrite (@mapM_In_Throw _ _ _ _ stateId TypeError Hin); [reflexivity |].
  now apply make_feature_lookup_failure.
Qed.

(** C9, as amended.  With zero tiles and a dataset of distinct region ids,
    each with an entry in the geography's name table and none a name
    inherited from [Object.prototype], [toTopoJson] raises no error; the
    features do not depend on [maxTileY] (which is [-Infinity]); and there
    is one feature per dataset entry, with that entry's id and metric, the
    region's name, and geometry [null]. *)
Theorem toTopoJson_without_tiles dataset metricPerTile geography :
  NoDup (map fst dataset) ->
  (forall d, In d dataset -> inherited (fst d) = false) ->
  (forall d, In d dataset -> getGeoCodeHash C geography (fst d) <> None) ->
  exists tilesByState features,
    aggregate [] dataset = Ok tilesByState
    /\ max_tile_y [] = NegInf
    /\ (forall maxTileY,
          mapM (make_feature C maxTileY (getGeoCodeHash C geography) dataset tilesByState)
               (Object_keys tilesByState)
          = Ok features)
    /\ toTopoJson C [] dataset metricPerTile geography
       = Ok {| topoJson :=
                 topology C [(OBJECT_ID, {| collection_type := "FeatureCollection";
                                            features := features |})];
               export_properties :=
                 {| tilegramMetricPerTile := metricPerTile;
                    tilegramVersion := version C;
                    tilegramTileSize := getTileDimensions C;
                    tilegramGeography := geography |} |}
    /\ Permutation (map (@feature_id Coord Name Metric) features) (map fst dataset)
    /\ Forall (fun feature =>
                 geometry feature = None
                 /\ exists d, In d dataset
                              /\ feature_id feature = fst d
                              /\ tilegramValue (properties feature) = snd d
                              /\ getGeoCodeHash C geography (fst d)
                                 = Some (name (properties feature)))
              features.
Proof.
  intros Hnd Hinh Hgeo.
  destruct (@aggregate_spec Metric [] dataset (fun t H => match H with end) Hinh)
    as (o & Ea & Hkeys & Hget).
  cbn [map app] in Hkeys.
  rewrite first_appearances_NoDup_id in Hkeys by (auto; intros k _ []).
  set (P := fun (stateId : string) (feature : Feature Coord Name Metric) =>
              feature_id feature = stateId
              /\ geometry feature = None
              /\ exists d, In d dataset
                           /\ feature_id feature = fst d
                           /\ tilegramValue (properties feature) = snd d
                           /\ getGeoCodeHash C geography (fst d)
                              = Some (name (properties feature))).
  assert (Hall : forall maxTileY stateId,
             In stateId (Object_keys o) ->
             exists feature,
               make_feature C maxTileY (getGeoCodeHash C geography) dataset o stateId
               = Ok feature
               /\ make_feature C NegInf (getGeoCodeHash C geography) dataset o stateId
                  = Ok feature
               /\ P stateId feature).
  { intros maxTileY stateId Hin. unfold Object_keys in Hin.
    rewrite key_order_In, Hkeys in Hin.
    assert (Hg : own_get stateId o = Some None).
    { rewrite Hget. cbn. apply mem_In in Hin. now rewrite Hin. }
    destruct (find (fun d => String.eqb (fst d) stateId) dataset) as [d |] eqn:Ed.
    - destruct (find_some _ _ Ed) as (Hd & Heq). apply String.eqb_eq in Heq.
      destruct (getGeoCodeHash C geography stateId) as [n |] eqn:En.
      + eexists. unfold make_feature. rewrite Hg, En, Ed. cbn.
        split; [reflexivity |]. split; [reflexivity |].
        unfold P. cbn. repeat split. exists d. repeat split; auto.
        now rewrite Heq.
      + destruct (Hgeo d Hd). now rewrite Heq.
    - apply in_map_iff in Hin. destruct Hin as (d & Heq & Hd).
      apply (find_none _ _ Ed) in Hd. rewrite Heq, String.eqb_refl in Hd. discriminate. }
  destruct (@mapM_exists _ _
              (make_feature C NegInf (getGeoCodeHash C geography) dataset o) P
              (Object_keys o))
    as (features & Ef & HP).
  { intros stateId Hin. destruct (Hall NegInf stateId Hin) as (f & _ & E & Pf). eauto. }
  assert (Hany : forall maxTileY,
             mapM (make_feature C maxTileY (getGeoCodeHash C geography) dataset o)
                  (Object_keys o)
             = Ok features).
  { intros maxTileY. rewrite <- Ef. apply mapM_ext_in. intros stateId Hin.
    destruct (Hall maxTileY stateId Hin) as (f & E1 & E2 & _). congruence. }
  exists o, features. split; [exact Ea |]. split; [reflexivity |].
  split; [exact Hany |]. split; [| split].
  - unfold toTopoJson, toTopoJson_features. cbv zeta. rewrite Ea. cbn [bind].
    rewrite Hany. reflexivity.
  - assert (E : map (@feature_id Coord Name Metric) features = Object_keys o).
    { clear - HP. induction HP as [| k f ks fs (Hid & _) _ IH]; cbn; [reflexivity |].
      now rewrite Hid, IH. }
    rewrite E. unfold Object_keys. rewrite Hkeys. apply key_order_perm.
  - clear - HP. induction HP as [| k f ks fs (_ & Hrest) _ IH]; constructor; auto.
Qed.

End ExporterClaims.

Section ExporterReturns.
Import TopoExporter.
Context {Center Coord Dimensions Name Metric Geography Label Version TopoJSON : Type}.
Variable C : Collaborators Center Coord Dimensions Name Metric Geography Version TopoJSON.

(** [toTopoJson] returns when no region id is a name inherited from
    [Object.prototype], every tile's region is in the dataset, every dataset
    region has a name in the geography's table, and the grid gives at least
    one point around every center. *)
Lemma toTopoJson_returns (tiles : list Tile) (dataset : list (string * Metric))
    (metricPerTile : Label) (geography : Geography) :
  (forall t, In t tiles -> inherited (id t) = false) ->
  (forall d, In d dataset -> inherited (fst d) = false) ->
  (forall t, In t tiles -> In (id t) (map fst dataset)) ->
  (forall d, In d dataset -> getGeoCodeHash C geography (fst d) <> None) ->
  (forall center, getPointsAround C center <> []) ->
  exists export, toTopoJson C tiles dataset metricPerTile geography = Ok export.
Proof.
  intros Ht Hd Hin Hgeo Hgrid.
  destruct (aggregate_spec tiles dataset Ht Hd) as (o & Ea & Hkeys & Hget).
  unfold toTopoJson, toTopoJson_features. cbv zeta. rewrite Ea. cbn [bind].
  destruct (@mapM_exists _ _
              (make_feature C (max_tile_y tiles) (getGeoCodeHash C geography) dataset o)
              (fun _ _ => True) (Object_keys o))
    as (features & Ef & _).
  - intros stateId Hk. unfold Object_keys in Hk.
    rewrite key_order_In, Hkeys, first_appearances_In, in_app_iff in Hk.
    assert (Hds : In stateId (map fst dataset)).
    { destruct Hk as [[Hk | Hk] _]; [| exact Hk].
      apply in_map_iff in Hk. destruct Hk as (t & <- & Hti). now apply Hin. }
    apply in_map_iff in Hds. destruct Hds as (d & Heq & Hdi).
    unfold make_feature.
    destruct (own_get stateId o) as [stateTiles |] eqn:Eg.
    + assert (Hgm : exists g, make_geometry C (max_tile_y tiles) stateTiles = Ok g).
      { destruct stateTiles as [ts |]; [| eexists; reflexivity]. unfold make_geometry.
        destruct (@mapM_exists _ _ (hexagon_ring C (max_tile_y tiles)) (fun _ _ => True) ts)
          as (rings & Er & _).
        - intros t _. unfold hexagon_ring. cbv zeta.
          destruct (getPointsAround C _) as [| p ps] eqn:Ep; [now apply Hgrid in Ep |].
          eexists. split; [reflexivity | exact I].
        - rewrite Er. cbn [bind]. eexists; reflexivity. }
      destruct Hgm as (g & Eg'). rewrite Eg'. cbn [bind].
      destruct (getGeoCodeHash C geography stateId) as [n |] eqn:En.
      * destruct (find (fun d0 => String.eqb (fst d0) stateId) dataset) as [d0 |] eqn:Ed.
        -- eexists. split; [reflexivity | exact I].
        -- apply (find_none _ _ Ed) in Hdi. rewrite Heq, String.eqb_refl in Hdi.
           discriminate.
      * destruct (Hgeo d Hdi). now rewrite Heq.
    + rewrite Hget in Eg. destruct (tiles_of_region stateId tiles); [| discriminate].
      assert (Hm : mem stateId (map fst dataset) = true).
      { apply mem_In, in_map_iff. eauto. }
      rewrite Hm in Eg. discriminate.
  - rewrite Ef. cbn [bind]. eexists; reflexivity.
Qed.

End ExporterReturns.

Section ExporterExamples.
Import TopoExporter.

Lemma toTopoJson_geometry_by_tile_count_witness :
  exists features tilesByState,
    toTopoJson_features example_collaborators
      [example_tile "X" 0 0; example_tile "X" 1 0; example_tile "Y" 0 3]
      [("X", 5); ("Y", 7); ("2", 9)] "US"
    = Ok features
    /\ map (fun feature => (feature_id feature, option_map (@geometry_type number) (geometry feature)))
           features
       = [("2", None); ("X", Some "MultiPolygon"); ("Y", Some "Polygon")]
    /\ aggregate [example_tile "X" 0 0; example_tile "X" 1 0; example_tile "Y" 0 3]
                 [("X", 5); ("Y", 7); ("2", 9)]
       = Ok tilesByState
    /\ Forall2 (fun stateId feature =>
                  exists stateTiles,
                    own_get stateId tilesByState = Some stateTiles
                    /\ stateTiles <> Some []
                    /\ feature_of_region example_collaborators
                         (max_tile_y [example_tile "X" 0 0; example_tile "X" 1 0;
                                      example_tile "Y" 0 3])
                         (getGeoCodeHash example_collaborators "US")
                         [("X", 5); ("Y", 7); ("2", 9)] stateTiles stateId feature)
               (Object_keys tilesByState) features.
Proof.
  eexists.
  destruct (@toTopoJson_geometry_by_tile_count _ _ _ _ _ _ _ _ example_collaborators
              [example_tile "X" 0 0; example_tile "X" 1 0; example_tile "Y" 0 3]
              [("X", 5); ("Y", 7); ("2", 9)] "US" _ eq_refl)
    as (o & Ea & HF).
  exists o. split; [reflexivity |]. split; [reflexivity |]. split; [exact Ea | exact HF].
Defined.

Lemma toTopoJson_lookup_failure_witness :
  toTopoJson example_collaborators [example_tile "Q" 0 0] [("Y", 1)] "population" "US"
  = Throw TypeError.
Proof.
  apply (@toTopoJson_lookup_failure _ _ _ _ _ _ string _ _ example_collaborators
           [example_tile "Q" 0 0] [("Y", 1)] "population" "US"
           [("Q", Some [example_tile "Q" 0 0]); ("Y", None)] "Q").
  - reflexivity.
  - cbn. tauto.
  - left. reflexivity.
Defined.

Lemma toTopoJson_without_tiles_witness :
  exists tilesByState features,
    aggregate [] [("Y", 1); ("X", 4)] = Ok tilesByState
    /\ max_tile_y [] = NegInf
    /\ (forall maxTileY,
          mapM (make_feature example_collaborators maxTileY
                  (getGeoCodeHash example_collaborators "US") [("Y", 1); ("X", 4)]
                  tilesByState)
               (Object_keys tilesByState)
          = Ok features)
    /\ toTopoJson example_collaborators [] [("Y", 1); ("X", 4)] "population" "US"
       = Ok {| topoJson :=
                 topology example_collaborators
                   [(OBJECT_ID, {| collection_type := "FeatureCollection";
                                   features := features |})];
               export_properties :=
                 {| tilegramMetricPerTile := "population";
                    tilegramVersion := version example_collaborators;
                    tilegramTileSize := getTileDimensions example_collaborators;
                    tilegramGeography := "US" |} |}
    /\ Permutation (map (@feature_id number string Z) features)
                   (map fst [("Y", 1); ("X", 4)])
    /\ Forall (fun feature =>
                 geometry feature = None
                 /\ exists d, In d [("Y", 1); ("X", 4)]
                              /\ feature_id feature = fst d
                              /\ tilegramValue (properties feature) = snd d
                              /\ getGeoCodeHash example_collaborators "US" (fst d)
                                 = Some (name (properties feature)))
              features.
Proof.
  apply (@toTopoJson_without_tiles _ _ _ _ _ _ string _ _ example_collaborators
           [("Y", 1); ("X", 4)] "population" "US").
  - repeat constructor; cbn; intuition discriminate.
  - intros d [<- | [<- | []]]; reflexivity.
  - intros d [<- | [<- | []]]; discriminate.
Defined.

(** C9 as the specification states it fails: no tiles and the one-entry
    dataset [("Z", 1)], where the geography's name table has no entry for
    "Z": reading [geoCodeToName["Z"].name] raises. *)
Lemma toTopoJson_without_tiles_unknown_region :
  getGeoCodeHash example_collaborators "US" "Z" = None
  /\ toTopoJson example_collaborators [] [("Z", 1)] "population" "US" = Throw TypeError.
Proof. split; reflexivity. Qed.

Lemma toTopoJson_returns_witness :
  exists export,
    toTopoJson example_collaborators
      [example_tile "X" 0 0; example_tile "X" 1 0; example_tile "Y" 0 3]
      [("X", 5); ("Y", 7); ("2", 9)] "population" "US"
    = Ok export.
Proof.
  apply (@toTopoJson_returns _ _ _ _ _ _ string _ _ example_collaborators).
  - intros t [<- | [<- | [<- | []]]]; reflexivity.
  - intros d [<- | [<- | [<- | []]]]; reflexivity.
  - intros t [<- | [<- | [<- | []]]]; cbn; tauto.
  - intros d [<- | [<- | [<- | []]]]; discriminate.
  - intros center. discriminate.
Defined.

End ExporterExamples.

(* ================================================================== *)
(** * Further properties of [fromGeoJSON] *)

Section DeltaEncoderMore.
Import DeltaEncoder.

Lemma seq_add_shift (n a m : nat) : map (Nat.add n) (seq a m) = seq (n + a) m.
Proof.
  revert a. induction m as [| m IH]; intros a; cbn; [reflexivity |].
  rewrite IH. now rewrite Nat.add_succ_r.
Qed.

Lemma concat_singletons {A : Type} (l : list A) :
  concat (concat (map (fun a => [[a]]) l)) = l.
Proof. induction l as [| a l IH]; cbn; [reflexivity | now rewrite IH]. Qed.

(** The indices a feature's geometry lists are those of the arcs the feature
    appended. *)
Lemma encode_feature_indices (arcs0 : list Arc) (f : Feature) (arcs1 : list Arc)
    (g : TopoGeometry) :
  encode_feature arcs0 f = Ok (arcs1, g) ->
  exists new_arcs,
    feature_arcs f = Ok new_arcs
    /\ arcs1 = arcs0 ++ new_arcs
    /\ id g = feature_id f
    /\ arc_indices g = seq (length arcs0) (length new_arcs).
Proof.
  rewrite encode_feature_eq. destruct (geometry f) as [geom |] eqn:Eg; [| discriminate].
  destruct (feature_arcs f) as [new_arcs |] eqn:Ea; cbn [bind]; [| discriminate].
  intros H. inversion H; subst; clear H. exists new_arcs.
  assert (Hlen : length new_arcs = length (coordinates geom)).
  { rewrite (feature_arcs_length _ Ea). unfold path_count. now rewrite Eg. }
  repeat split; try reflexivity. unfold arc_indices. cbn [arcs]. rewrite Hlen.
  destruct (hasMultiplePaths geom).
  - apply concat_singletons.
  - cbn. now rewrite app_nil_r.
Qed.

Lemma encode_features_indices (fs : list Feature) :
  forall arcs0 arcs1 gs,
    encode_features arcs0 fs = Ok (arcs1, gs) ->
    map id gs = map feature_id fs
    /\ flat_map arc_indices gs = seq (length arcs0) (length arcs1 - length arcs0).
Proof.
  induction fs as [| f fs IH]; cbn; intros arcs0 arcs1 gs H.
  - inversion H; subst. cbn. now rewrite Nat.sub_diag.
  - destruct (encode_feature arcs0 f) as [[a1 g] |] eqn:Ef; cbn in H; [| discriminate].
    destruct (encode_features a1 fs) as [[a2 gs'] |] eqn:Efs; cbn in H; [| discriminate].
    inversion H; subst; clear H.
    destruct (encode_feature_indices _ _ Ef) as (new_arcs & _ & -> & Hid & Hidx).
    destruct (IH _ _ _ Efs) as (Hids & Hrest).
    destruct (encode_features_eq _ _ Efs) as (per & _ & Ha2 & _).
    split; [cbn; now rewrite Hid, Hids |].
    cbn. rewrite Hidx, Hrest, Ha2, !length_app.
    replace (length arcs0 + length new_arcs + length (concat per) - length arcs0)%nat
      with (length new_arcs + length (concat per))%nat by lia.
    replace (length arcs0 + length new_arcs + length (concat per)
             - (length arcs0 + length new_arcs))%nat
      with (length (concat per)) by lia.
    now rewrite seq_app.
Qed.

Lemma nth_error_seq_middle {A : Type} (b : list A) :
  forall a c,
    map (nth_error (a ++ b ++ c)) (seq (length a) (length b)) = map Some b.
Proof.
  induction b as [| x b IH]; intros a c; cbn [length seq map app]; [reflexivity |].
  f_equal.
  - rewrite nth_error_app2 by lia. now rewrite Nat.sub_diag.
  - replace (a ++ x :: b ++ c) with ((a ++ [x]) ++ b ++ c)
      by (now rewrite <- app_assoc).
    replace (S (length a)) with (length (a ++ [x])) by (rewrite length_app; cbn; lia).
    apply IH.
Qed.

(** Each geometry lists the indices at which the final [arcs] array holds
    the arcs of its own feature, in path order. *)
Lemma encode_features_refer (fs : list Feature) :
  forall arcs0 arcs1 gs,
    encode_features arcs0 fs = Ok (arcs1, gs) ->
    exists per_feature,
      mapM feature_arcs fs = Ok per_feature
      /\ arcs1 = arcs0 ++ concat per_feature
      /\ forall rest,
           Forall2 (fun g new_arcs =>
                      map (nth_error (arcs1 ++ rest)) (arc_indices g) = map Some new_arcs)
                   gs per_feature.
Proof.
  induction fs as [| f fs IH]; cbn [encode_features]; intros arcs0 arcs1 gs H.
  - inversion H; subst. exists []. cbn. rewrite app_nil_r.
    split; [reflexivity |]. split; [reflexivity | constructor].
  - destruct (encode_feature arcs0 f) as [[a1 g] |] eqn:Ef; cbn [bind] in H; [| discriminate].
    destruct (encode_features a1 fs) as [[a2 gs'] |] eqn:Efs; cbn [bind] in H;
      [| discriminate].
    inversion H; subst; clear H.
    destruct (encode_feature_indices _ _ Ef) as (new_arcs & Hnew & -> & _ & Hidx).
    destruct (IH _ _ _ Efs) as (per & Hper & -> & Hrefs).
    exists (new_arcs :: per). cbn [mapM concat]. rewrite Hnew, Hper. cbn [bind].
    split; [reflexivity |]. split; [now rewrite <- app_assoc |].
    intros rest. constructor; [| apply Hrefs].
    rewrite Hidx, <- !app_assoc. apply nth_error_seq_middle.
Qed.

(** X3. Whenever [fromGeoJSON] returns, every output geometry lists exactly
    the indices at which the topology's [arcs] hold the arcs built from its
    own feature, in path order; and the indices listed by all the
    geometries, read in order, are exactly 0, 1, ..., n-1 for the n arcs of
    the topology: every index is in range and every arc is referred to
    exactly once. *)
Theorem fromGeoJSON_arc_indices
    (geoJSON : GeoJSON) (objectId : option string) (topo : Topology) :
  fromGeoJSON geoJSON objectId = Ok topo ->
  flat_map arc_indices (topology_geometries topo)
  = seq 0 (length (topology_arcs topo))
  /\ exists per_feature,
       mapM feature_arcs (features geoJSON) = Ok per_feature
       /\ Forall2 (fun g new_arcs =>
                     map (nth_error (topology_arcs topo)) (arc_indices g)
                     = map Some new_arcs)
                  (topology_geometries topo) per_feature.
Proof.
  unfold fromGeoJSON.
  destruct (encode_features [] (features geoJSON)) as [[arcs1 gs] |] eqn:E; cbn [bind];
    [| discriminate].
  intros H. inversion H; subst; clear H. unfold topology_geometries. cbn.
  rewrite app_nil_r. split.
  - destruct (encode_features_indices _ _ E) as (_ & Hidx).
    rewrite Hidx. cbn. now rewrite Nat.sub_0_r.
  - destruct (encode_features_refer _ _ E) as (per & Hper & _ & Hrefs).
    exists per. split; [exact Hper |]. specialize (Hrefs []).
    now rewrite app_nil_r in Hrefs.
Qed.

Lemma fromGeoJSON_arc_indices_witness :
  exists topo,
    fromGeoJSON example_geoJSON None = Ok topo
    /\ map arc_indices (topology_geometries topo) = [[0]; [1; 2]]%nat
    /\ flat_map arc_indices (topology_geometries topo)
       = seq 0 (length (topology_arcs topo))
    /\ exists per_feature,
         mapM feature_arcs (features example_geoJSON) = Ok per_feature
         /\ Forall2 (fun g new_arcs =>
                       map (nth_error (topology_arcs topo)) (arc_indices g)
                       = map Some new_arcs)
                    (topology_geometries topo) per_feature.
Proof.
  eexists. split; [reflexivity |]. split; [reflexivity |].
  apply (@fromGeoJSON_arc_indices example_geoJSON None). reflexivity.
Defined.



Lemma mapM_map_Ok {A B C : Type} (f : B -> result C) (g : A -> B) (h : A -> C) (l : list A) :
  (forall a, f (g a) = Ok (h a)) -> mapM f (map g l) = Ok (map h l).
Proof.
  intros H. induction l as [| a l IH]; cbn; [reflexivity |]. now rewrite H, IH.
Qed.

(** X5. A geometry whose [coordinates] hold two or more rings of points (a
    GeoJSON Polygon with holes) is taken for a multi-part geometry: of each
    ring only the first point [[x, y]] is read, as if it were the ring.  No
    error is raised; every ring gives the two-entry arc [[x, [NaN, NaN]]] and
    the feature comes out as a "MultiPolygon". *)
Theorem encode_feature_rings_as_parts (arcs0 : list Arc) (fid ty : string)
    (rings : list ((number * number) * list value)) :
  (2 <= length rings)%nat ->
  encode_feature arcs0
    {| feature_id := fid;
       geometry := Some {| geo_type := ty;
                           coordinates := map (fun r => ring_from (fst r) (snd r)) rings |} |}
  = Ok (arcs0 ++ map (fun r => [VNum (fst (fst r)); VArr [VNum NaN; VNum NaN]]) rings,
        {| type := "MultiPolygon";
           id := fid;
           arcs := Parts (map (fun index => [[index]])
                              (seq (length arcs0) (length rings))) |}).
Proof.
  intros Hlen. rewrite encode_feature_eq. cbn [geometry]. unfold feature_arcs.
  cbn [geometry]. unfold hasMultiplePaths. cbn [coordinates]. rewrite length_map.
  assert (E : (1 <? length rings)%nat = true) by (apply Nat.ltb_lt; lia).
  rewrite E.
  rewrite (@mapM_map_Ok _ _ _ (path_points true) (fun r => ring_from (fst r) (snd r))
             (fun r => [VNum (fst (fst r)); VNum (snd (fst r))])) by reflexivity.
  cbn [bind]. rewrite map_map. reflexivity.
Qed.

Lemma encode_feature_rings_as_parts_witness :
  encode_feature []
    {| feature_id := "A";
       geometry :=
         Some {| geo_type := "Polygon";
                 coordinates :=
                   [ VArr (map point2 [(0, 0); (9, 0); (9, 9); (0, 0)]);
                     VArr (map point2 [(2, 2); (3, 2); (3, 3); (2, 2)]) ] |} |}
  = Ok ([ [VNum (Int 0); VArr [VNum NaN; VNum NaN]];
          [VNum (Int 2); VArr [VNum NaN; VNum NaN]] ],
        {| type := "MultiPolygon"; id := "A"; arcs := Parts [[[0%nat]]; [[1%nat]]] |}).
Proof.
  apply (@encode_feature_rings_as_parts [] "A" "Polygon"
           [ ((Int 0, Int 0), map point2 [(9, 0); (9, 9); (0, 0)]);
             ((Int 2, Int 2), map point2 [(3, 2); (3, 3); (2, 2)]) ]).
  cbn. lia.
Defined.

Lemma shift_arcs_feature (n a m : nat) (multiple : bool) (fid : string) :
  shift_arcs n
    {| type := if multiple then "MultiPolygon" else "Polygon";
       id := fid;
       arcs := if multiple
               then Parts (map (fun index => [[index]]) (seq a m))
               else Rings [seq a m] |}
  = {| type := if multiple then "MultiPolygon" else "Polygon";
       id := fid;
       arcs := if multiple
               then Parts (map (fun index => [[index]]) (seq (n + a) m))
               else Rings [seq (n + a) m] |}.
Proof.
  unfold shift_arcs. cbn [type id arcs]. f_equal. destruct multiple.
  - f_equal. rewrite <- seq_add_shift, !map_map. reflexivity.
  - cbn. now rewrite seq_add_shift.
Qed.

Lemma shift_arcs_add (n m : nat) (g : TopoGeometry) :
  shift_arcs n (shift_arcs m g) = shift_arcs (n + m) g.
Proof.
  unfold shift_arcs. cbn [type id arcs]. f_equal.
  destruct (arcs g) as [rings | parts]; f_equal.
  - rewrite map_map. apply map_ext. intros ring. rewrite map_map.
    apply map_ext. intros i. lia.
  - rewrite map_map. apply map_ext. intros part. rewrite map_map.
    apply map_ext. intros ring. rewrite map_map. apply map_ext. intros i. lia.
Qed.

(** Encoding from a non-empty [arcs] array gives what encoding from the empty
    one gives, with the arcs appended and the indices moved up. *)
Lemma encode_features_shift (fs : list Feature) :
  forall arcs0,
    encode_features arcs0 fs
    = ('(new_arcs, gs) <- encode_features [] fs ;;
       Ok (arcs0 ++ new_arcs, map (shift_arcs (length arcs0)) gs)).
Proof.
  induction fs as [| f fs IH]; intros arcs0; cbn [encode_features bind].
  - cbn. now rewrite app_nil_r.
  - rewrite !encode_feature_eq. destruct (geometry f) as [geom |]; [| reflexivity].
    destruct (feature_arcs f) as [new_arcs |]; cbn [bind]; [| reflexivity].
    cbv zeta. rewrite (IH (arcs0 ++ new_arcs)), (IH ([] ++ new_arcs)).
    destruct (encode_features [] fs) as [[rest gs] |]; cbn [bind]; [| reflexivity].
    cbn [app map length]. rewrite <- app_assoc, shift_arcs_feature, Nat.add_0_r.
    rewrite map_map, length_app.
    do 2 f_equal. f_equal. apply map_ext. intros g. now rewrite shift_arcs_add.
Qed.

Lemma encode_features_app (fs1 fs2 : list Feature) :
  forall arcs0,
    encode_features arcs0 (fs1 ++ fs2)
    = ('(arcs1, gs1) <- encode_features arcs0 fs1 ;;
       '(arcs2, gs2) <- encode_features arcs1 fs2 ;;
       Ok (arcs2, gs1 ++ gs2)).
Proof.
  induction fs1 as [| f fs1 IH]; intros arcs0; cbn [app encode_features bind].
  - destruct (encode_features arcs0 fs2) as [[a g] |]; reflexivity.
  - destruct (encode_feature arcs0 f) as [[a1 g] |]; cbn [bind]; [| reflexivity].
    rewrite IH. destruct (encode_features a1 fs1) as [[a2 gs1] |]; cbn [bind]; [| reflexivity].
    destruct (encode_features a2 fs2) as [[a3 gs2] |]; reflexivity.
Qed.

(** X6. Encoding is compositional: [fromGeoJSON] returns on the features
    [fs1] followed by [fs2] exactly when it returns on each list alone, and
    then its arcs are those of [fs1] followed by those of [fs2], and its
    geometries are those of [fs1] followed by those of [fs2] with every arc
    index moved up by the number of arcs of [fs1]. *)
Theorem fromGeoJSON_app (fs1 fs2 : list Feature) (objectId : option string) :
  match fromGeoJSON {| features := fs1 |} objectId,
        fromGeoJSON {| features := fs2 |} objectId with
  | Ok topo1, Ok topo2 =>
      exists topo,
        fromGeoJSON {| features := fs1 ++ fs2 |} objectId = Ok topo
        /\ topology_arcs topo = topology_arcs topo1 ++ topology_arcs topo2
        /\ topology_geometries topo
           = topology_geometries topo1
               ++ map (shift_arcs (length (topology_arcs topo1)))
                      (topology_geometries topo2)
  | _, _ => fromGeoJSON {| features := fs1 ++ fs2 |} objectId = Throw TypeError
  end.
Proof.
  unfold fromGeoJSON. cbn [features]. rewrite encode_features_app.
  destruct (encode_features [] fs1) as [[arcs1 gs1] | []]; cbn [bind].
  - rewrite (encode_features_shift fs2 arcs1).
    destruct (encode_features [] fs2) as [[arcs2 gs2] | []]; cbn [bind].
    + eexists. split; [reflexivity |]. unfold topology_geometries. cbn.
      now rewrite !app_nil_r.
    + reflexivity.
  - destruct (encode_features [] fs2) as [[arcs2 gs2] | []]; reflexivity.
Qed.

End DeltaEncoderMore.

(* ================================================================== *)
(** * Further properties of [toTopoJson] *)

Section AggregationMore.
Import TopoExporter.
Variable Metric : Type.
Implicit Types (o : JsObject StateTiles) (tiles : list Tile)
  (dataset : list (string * Metric)).

Lemma own_keys_set_incl (V : Type) (k0 k : string) (v : V) (obj : JsObject V) :
  In k (own_keys (set k0 v obj)) -> In k (own_keys obj) \/ k = k0.
Proof.
  destruct (in_dec string_dec k0 (own_keys obj)) as [Hin | Hnin].
  - rewrite own_keys_set_old by exact Hin. tauto.
  - rewrite own_keys_set_new by exact Hnin. rewrite in_app_iff. cbn. intuition.
Qed.

Lemma add_tile_inherited o (t : Tile) :
  (forall k, In k (own_keys o) -> inherited k = false) ->
  inherited (id t) = true ->
  add_tile o t = Throw TypeError.
Proof.
  intros Hinv Hinh. unfold add_tile, StateTiles in *.
  assert (E : own_get (id t) o = None).
  { apply own_get_None. intros Hin. apply Hinv in Hin. congruence. }
  rewrite E, Hinh. cbn [negb]. cbv beta iota zeta. now rewrite E.
Qed.

Lemma add_tile_keeps_names o (t : Tile) o' :
  (forall k, In k (own_keys o) -> inherited k = false) ->
  add_tile o t = Ok o' ->
  forall k, In k (own_keys o') -> inherited k = false.
Proof.
  intros Hinv H. destruct (inherited (id t)) eqn:Hinh.
  - rewrite (add_tile_inherited o t Hinv Hinh) in H. discriminate.
  - revert H. unfold add_tile, StateTiles in *.
    set (o1 := if match own_get (id t) o with
                  | Some (Some _) => false
                  | Some None => true
                  | None => negb (inherited (id t))
                  end
               then set (id t) (Some []) o else o).
    assert (H1 : forall k, In k (own_keys o1) -> inherited k = false).
    { intros k. unfold o1. destruct (match own_get (id t) o with
                                      | Some (Some _) => false
                                      | Some None => true
                                      | None => negb (inherited (id t))
                                      end); [| apply Hinv].
      intros Hin. apply own_keys_set_incl in Hin. destruct Hin as [Hin | ->]; auto. }
    cbv zeta. fold o1. destruct (own_get (id t) o1) as [[l |] |]; try discriminate.
    intros H. inversion H; subst; clear H. intros k Hin.
    apply own_keys_set_incl in Hin. destruct Hin as [Hin | ->]; auto.
Qed.

Lemma add_tiles_inherited tiles :
  forall o,
    (forall k, In k (own_keys o) -> inherited k = false) ->
    (exists t, In t tiles /\ inherited (id t) = true) ->
    add_tiles o tiles = Throw TypeError.
Proof.
  induction tiles as [| t rest IH]; intros o Hinv (t' & Hin & Hinh); [destruct Hin |].
  cbn [add_tiles]. destruct (add_tile o t) as [o1 | []] eqn:E; cbn [bind]; [| reflexivity].
  apply IH; [eapply add_tile_keeps_names; eauto |].
  destruct Hin as [-> | Hin]; [| eauto].
  rewrite (add_tile_inherited o t' Hinv Hinh) in E. discriminate.
Qed.

Lemma add_entry_keeps_names o (d : string * Metric) :
  (forall k, In k (own_keys o) -> inherited k = false) ->
  forall k, In k (own_keys (add_entry o d)) -> inherited k = false.
Proof.
  intros Hinv k. unfold add_entry, StateTiles in *.
  destruct (own_get (fst d) o) as [[l |] |] eqn:E; cbv beta iota zeta; try apply Hinv.
  - rewrite (set_same_value _ _ E). apply Hinv.
  - destruct (inherited (fst d)) eqn:Hinh; cbn [negb]; cbv iota; [apply Hinv |].
    intros Hin. apply own_keys_set_incl in Hin. destruct Hin as [Hin | ->]; auto.
Qed.

(** A dataset entry whose id is a name inherited from [Object.prototype]
    changes nothing (line 39): the aggregation is that of the other
    entries. *)
Lemma add_entries_filter dataset :
  forall o,
    (forall k, In k (own_keys o) -> inherited k = false) ->
    fold_left (@add_entry Metric) dataset o
    = fold_left (@add_entry Metric)
        (filter (fun d => negb (inherited (fst d))) dataset) o.
Proof.
  induction dataset as [| d rest IH]; intros o Hinv; [reflexivity |].
  cbn [fold_left filter]. destruct (inherited (fst d)) eqn:Hinh; cbn [negb].
  - assert (E : add_entry o d = o).
    { unfold add_entry, StateTiles in *.
      assert (E : own_get (fst d) o = None).
      { apply own_get_None. intros Hin. apply Hinv in Hin. congruence. }
      now rewrite E, Hinh. }
    rewrite E. now apply IH.
  - cbn [fold_left]. apply IH. now apply add_entry_keeps_names.
Qed.

(** The aggregation in closed form, for any dataset. *)
Lemma aggregate_general tiles dataset :
  (forall t, In t tiles -> inherited (id t) = false) ->
  exists tilesByState,
    aggregate tiles dataset = Ok tilesByState
    /\ own_keys tilesByState
       = first_appearances []
           (map id tiles
              ++ map fst (filter (fun d => negb (inherited (fst d))) dataset))
    /\ forall k, own_get k tilesByState
                 = match tiles_of_region k tiles with
                   | [] => if mem k (map fst (filter (fun d => negb (inherited (fst d)))
                                                     dataset))
                           then Some None else None
                   | ts => Some (Some ts)
                   end.
Proof.
  intros Ht.
  destruct (@aggregate_spec Metric tiles
              (filter (fun d => negb (inherited (fst d))) dataset) Ht)
    as (o & E & K & G).
  { intros d Hd. apply filter_In in Hd. destruct Hd as (_ & Hd).
    now apply negb_true_iff in Hd. }
  exists o. split; [| now split].
  revert E. unfold aggregate.
  destruct (@add_tiles_spec tiles [] (fun k => ltac:(discriminate)) Ht) as (o1 & E1 & K1 & _).
  rewrite E1. cbn [bind]. rewrite (@add_entries_filter dataset o1); [auto |].
  intros k Hin. rewrite K1 in Hin. cbn in Hin.
  apply first_appearances_In in Hin. destruct Hin as (Hin & _).
  apply in_map_iff in Hin. destruct Hin as (t & <- & Hin). now apply Ht.
Qed.

Lemma aggregate_Ok_tiles tiles dataset o :
  aggregate tiles dataset = Ok o ->
  forall t, In t tiles -> inherited (id t) = false.
Proof.
  intros E t Hin. destruct (inherited (id t)) eqn:Hinh; [| reflexivity].
  unfold aggregate in E.
  rewrite (@add_tiles_inherited tiles []) in E; [discriminate | intros k [] | eauto].
Qed.

(** The regions of the aggregation: those of the tiles, and those of the
    dataset whose id is not a name inherited from [Object.prototype]. *)
Lemma aggregate_keys tiles dataset o :
  aggregate tiles dataset = Ok o ->
  NoDup (Object_keys o)
  /\ forall k, In k (Object_keys o)
               <-> In k (map id tiles)
                   \/ (In k (map fst dataset) /\ inherited k = false).
Proof.
  intros E. destruct (aggregate_general tiles dataset (aggregate_Ok_tiles _ _ E))
    as (o' & E' & K & _).
  rewrite E in E'. inversion E'; subst o'; clear E'. split.
  - apply (Permutation_NoDup (l := own_keys o)); [symmetry; apply key_order_perm |].
    rewrite K. apply first_appearances_NoDup.
  - intros k. unfold Object_keys. rewrite key_order_In, K, first_appearances_In, in_app_iff.
    split.
    + intros ([Hin | Hin] & _); [now left |]. right.
      apply in_map_iff in Hin. destruct Hin as (d & <- & Hd).
      apply filter_In in Hd. destruct Hd as (Hd & Hn). apply negb_true_iff in Hn.
      split; [now apply in_map | exact Hn].
    + intros [Hin | (Hin & Hn)]; (split; [| intros []]); [now left |]. right.
      apply in_map_iff in Hin. destruct Hin as (d & <- & Hd). apply in_map.
      apply filter_In. split; [exact Hd |]. now apply negb_true_iff.
Qed.

(** X7. The aggregation of the tiles by region throws exactly when some
    tile's region id is a name that a plain object inherits from
    [Object.prototype] (such as "constructor"): the inherited value is truthy,
    so no array is created, and it has no [push].  The dataset never makes it
    throw. *)
Theorem aggregate_throws_iff tiles dataset :
  aggregate tiles dataset = Throw TypeError
  <-> exists t, In t tiles /\ inherited (id t) = true.
Proof.
  split.
  - intros E. destruct (existsb (fun t => inherited (id t)) tiles) eqn:Ex.
    + apply existsb_exists in Ex. exact Ex.
    + destruct (aggregate_general tiles dataset) as (o & Eo & _).
      * intros t Hin. destruct (inherited (id t)) eqn:Hinh; [| reflexivity].
        assert (Hex : existsb (fun t => inherited (id t)) tiles = true)
          by (apply existsb_exists; eauto).
        congruence.
      * congruence.
  - intros H. unfold aggregate.
    rewrite (@add_tiles_inherited tiles []); [reflexivity | intros k [] | exact H].
Qed.

End AggregationMore.

Lemma mapM_Ok_In {A B : Type} (f : A -> result B) (l : list A) (bs : list B) (a : A) :
  mapM f l = Ok bs -> In a l -> exists b, f a = Ok b /\ In b bs.
Proof.
  intros H Hin. apply mapM_Forall2 in H.
  induction H as [| a' b' l' bs' Hab _ IH]; [destruct Hin |].
  destruct Hin as [-> | Hin].
  - exists b'. split; [exact Hab | now left].
  - destruct (IH Hin) as (b & Hb & Hbin). exists b. split; [exact Hb | now right].
Qed.

Section ExporterMore.
Import TopoExporter.
Context {Center Coord Dimensions Name Metric Geography Label Version TopoJSON : Type}.
Variable C : Collaborators Center Coord Dimensions Name Metric Geography Version TopoJSON.
Implicit Types (tiles : list Tile) (dataset : list (string * Metric))
  (geography : Geography) (metricPerTile : Label).

(** X8. Whenever [toTopoJson] builds its features, no two of them have the
    same id, and the ids are exactly the region ids of the tiles together
    with the region ids of the dataset that are not names inherited from
    [Object.prototype]: a dataset entry named like one (say "toString") gets
    no feature, silently, and a region id repeated in the dataset gets a
    single feature. *)
Theorem toTopoJson_feature_ids tiles dataset geography
    (features : list (Feature Coord Name Metric)) :
  toTopoJson_features C tiles dataset geography = Ok features ->
  NoDup (map (@feature_id Coord Name Metric) features)
  /\ forall k, In k (map (@feature_id Coord Name Metric) features)
               <-> In k (map id tiles)
                   \/ (In k (map fst dataset) /\ inherited k = false).
Proof.
  unfold toTopoJson_features. cbv zeta.
  destruct (aggregate tiles dataset) as [o |] eqn:Ea; cbn [bind]; [| discriminate].
  intros H.
  assert (E : map (@feature_id Coord Name Metric) features = Object_keys o).
  { apply mapM_Forall2 in H. induction H as [| k f ks fs Hf _ IH]; [reflexivity |].
    apply make_feature_Ok in Hf. destruct Hf as (_ & _ & _ & _ & _ & Hid & _).
    cbn [map]. now rewrite Hid, IH. }
  rewrite E. exact (aggregate_keys _ _ Ea).
Qed.

Lemma hexagon_ring_returns (maxTileY : number) (tile : Tile) :
  (exists ring, hexagon_ring C maxTileY tile = Ok ring)
  <-> getPointsAround C (tile_center C maxTileY tile) <> [].
Proof.
  unfold hexagon_ring, tile_center. cbv zeta.
  destruct (getPointsAround C _) as [| p ps]; split.
  - intros (ring & H). discriminate.
  - intros H. now destruct H.
  - discriminate.
  - intros _. eexists. reflexivity.
Qed.

Lemma tiles_of_region_In (k : string) tiles (t : Tile) :
  In t (tiles_of_region k tiles) <-> In t tiles /\ id t = k.
Proof.
  unfold tiles_of_region. rewrite filter_In. now rewrite String.eqb_eq.
Qed.

(** X9. [toTopoJson] returns exactly when (1) no tile's region id is a name
    inherited from [Object.prototype] and the grid gives at least one point
    around every tile's center, and (2) every region of the export (every
    tile's region, and every dataset region whose id is not such an inherited
    name) has an entry both in the dataset and in the geography's name table.
    In every other case it throws. *)
Theorem toTopoJson_returns_iff tiles dataset metricPerTile geography :
  (exists export, toTopoJson C tiles dataset metricPerTile geography = Ok export)
  <-> (forall t, In t tiles ->
                 inherited (id t) = false
                 /\ getPointsAround C (tile_center C (max_tile_y tiles) t) <> [])
      /\ (forall k, In k (map id tiles) \/ (In k (map fst dataset) /\ inherited k = false) ->
                    In k (map fst dataset)
                    /\ getGeoCodeHash C geography k <> None).
Proof.
  unfold toTopoJson, toTopoJson_features. cbv zeta. split.
  - intros (export & H).
    destruct (aggregate tiles dataset) as [o |] eqn:Ea; cbn [bind] in H; [| discriminate].
    destruct (mapM _ (Object_keys o)) as [features |] eqn:Ef; cbn [bind] in H;
      [| discriminate].
    clear H. pose proof (aggregate_Ok_tiles _ _ Ea) as Ht.
    destruct (aggregate_general tiles dataset Ht) as (o' & Eo & _ & Hget).
    rewrite Ea in Eo. inversion Eo; subst o'; clear Eo.
    destruct (aggregate_keys _ _ Ea) as (_ & Hkeys).
    assert (Hfeat : forall k, In k (Object_keys o) ->
              exists stateTiles g d,
                own_get k o = Some stateTiles
                /\ make_geometry C (max_tile_y tiles) stateTiles = Ok g
                /\ getGeoCodeHash C geography k <> None
                /\ find (fun d => String.eqb (fst d) k) dataset = Some d).
    { intros k Hk. destruct (mapM_Ok_In _ _ _ Ef Hk) as (f & Hf & _).
      apply make_feature_Ok in Hf.
      destruct Hf as (st & d & Hg & Hgeo & _ & _ & Hname & Hfind & _).
      exists st, (geometry f), d. repeat split; try assumption. congruence. }
    split.
    + intros t Hin. split; [now apply Ht |].
      assert (Hk : In (id t) (Object_keys o)) by (apply Hkeys; left; now apply in_map).
      destruct (Hfeat _ Hk) as (st & g & _ & Hg & Hgeo & _ & _).
      rewrite Hget in Hg. destruct (tiles_of_region (id t) tiles) as [| t0 ts] eqn:Etr.
      * apply tiles_of_region_nil in Etr. destruct Etr. now apply in_map.
      * inversion Hg; subst st; clear Hg. unfold make_geometry in Hgeo.
        destruct (mapM (hexagon_ring C (max_tile_y tiles)) (t0 :: ts)) as [rings |] eqn:Er;
          cbn [bind] in Hgeo; [| discriminate].
        assert (Hin' : In t (t0 :: ts)).
        { rewrite <- Etr. now apply tiles_of_region_In. }
        destruct (mapM_Ok_In _ _ _ Er Hin') as (ring & Hring & _).
        apply hexagon_ring_returns. eauto.
    + intros k Hk. apply Hkeys in Hk.
      destruct (Hfeat _ Hk) as (st & g & d & _ & _ & Hname & Hfind).
      split; [| exact Hname].
      apply find_some in Hfind. destruct Hfind as (Hd & Heq).
      apply String.eqb_eq in Heq. rewrite <- Heq. now apply in_map.
  - intros (Htiles & Hregions).
    destruct (aggregate_general tiles dataset (fun t H => proj1 (Htiles t H)))
      as (o & Ea & _ & Hget).
    destruct (aggregate_keys _ _ Ea) as (_ & Hkeys).
    rewrite Ea. cbn [bind].
    destruct (@mapM_exists _ _
                (make_feature C (max_tile_y tiles) (getGeoCodeHash C geography) dataset o)
                (fun _ _ => True) (Object_keys o))
      as (features & Ef & _).
    + intros k Hk. pose proof (proj1 (Hkeys k) Hk) as Hk'.
      destruct (Hregions k Hk') as (Hds & Hgeo).
      unfold make_feature.
      destruct (own_get k o) as [stateTiles |] eqn:Eg.
      * assert (Hgm : exists g, make_geometry C (max_tile_y tiles) stateTiles = Ok g).
        { rewrite Hget in Eg. destruct stateTiles as [ts |]; [| eexists; reflexivity].
          unfold make_geometry.
          destruct (@mapM_exists _ _ (hexagon_ring C (max_tile_y tiles))
                      (fun _ _ => True) ts) as (rings & Er & _).
          - intros t Hin.
            assert (Hte : In t tiles).
            { destruct (tiles_of_region k tiles) eqn:Etr; [| inversion Eg; subst ts].
              - destruct (mem k _); discriminate.
              - rewrite <- Etr in Hin. now apply tiles_of_region_In in Hin. }
            destruct (proj2 (hexagon_ring_returns (max_tile_y tiles) t)
                        (proj2 (Htiles t Hte))) as (ring & Hring).
            eauto.
          - rewrite Er. cbn [bind]. eexists; reflexivity. }
        destruct Hgm as (g & Eg'). rewrite Eg'. cbn [bind].
        destruct (getGeoCodeHash C geography k) as [n |]; [| now destruct Hgeo].
        destruct (find (fun d0 => String.eqb (fst d0) k) dataset) as [d0 |] eqn:Ed.
        -- eexists. split; [reflexivity | exact I].
        -- apply in_map_iff in Hds. destruct Hds as (d & Heq & Hd).
           apply (find_none _ _ Ed) in Hd. rewrite Heq, String.eqb_refl in Hd.
           discriminate.
      * apply own_get_None in Eg. destruct Eg. unfold Object_keys in Hk.
        exact (proj1 (key_order_In _ _) Hk).
    + rewrite Ef. cbn [bind]. eexists; reflexivity.
Qed.

End ExporterMore.

Section ExporterRows.
Import TopoExporter.
Context {Center Coord Dimensions Name Metric Geography Version TopoJSON : Type}.
Variable C : Collaborators Center Coord Dimensions Name Metric Geography Version TopoJSON.

Lemma max_fold (tiles : list Tile) :
  forall acc,
    exists m,
      fold_left (fun max tile => Math_max max (Int (y (position tile)))) tiles (Int acc)
      = Int m
      /\ acc <= m
      /\ (forall t, In t tiles -> y (position t) <= m)
      /\ (m = acc \/ exists t, In t tiles /\ y (position t) = m).
Proof.
  induction tiles as [| t rest IH]; intros acc; cbn [fold_left].
  - exists acc. repeat split; [lia | intros t [] | now left].
  - cbn [Math_max]. destruct (IH (Z.max acc (y (position t)))) as (m & E & Hge & Hall & Hatt).
    exists m. split; [exact E |]. split; [lia |]. split.
    + intros t' [<- | Hin]; [lia | now apply Hall].
    + destruct Hatt as [-> | (t' & Hin & Ht')].
      * destruct (Z.max_spec acc (y (position t))) as [(_ & ->) | (_ & ->)].
        -- right. exists t. split; [now left | reflexivity].
        -- now left.
      * right. exists t'. split; [now right | exact Ht'].
Qed.

Lemma max_tile_y_nonempty (tiles : list Tile) :
  max_tile_y [] = NegInf
  /\ (tiles <> [] ->
      exists m,
        max_tile_y tiles = Int m
        /\ (forall t, In t tiles -> y (position t) <= m)
        /\ exists t, In t tiles /\ y (position t) = m).
Proof.
  split; [reflexivity |]. destruct tiles as [| t rest]; [congruence |]. intros _.
  unfold max_tile_y. cbn [fold_left Math_max].
  destruct (max_fold rest (y (position t))) as (m & E & Hge & Hall & Hatt).
  exists m. split; [exact E |]. split.
  - intros t' [<- | Hin]; [lia | now apply Hall].
  - destruct Hatt as [-> | (t' & Hin & Ht')].
    + exists t. split; [now left | reflexivity].
    + exists t'. split; [now right | exact Ht'].
Qed.

(** X10. [maxTileY] (lines 24-27) is [-Infinity] when there is no tile, and
    otherwise the largest row [position.y] among the tiles: no tile is on a
    higher row and some tile is on that row. *)
Theorem max_tile_y_is_max (tiles : list Tile) :
  max_tile_y [] = NegInf
  /\ (tiles <> [] ->
      exists m,
        max_tile_y tiles = Int m
        /\ (forall t, In t tiles -> y (position t) <= m)
        /\ exists t, In t tiles /\ y (position t) = m).
Proof. exact (max_tile_y_nonempty tiles). Qed.

Lemma rem_2_bounds (m : Z) :
  (0 <= m -> 0 <= Z.rem m 2 <= 1) /\ (m <= 0 -> -1 <= Z.rem m 2 <= 0).
Proof.
  pose proof (Z.rem_bound_abs m 2 ltac:(lia)) as Hb.
  pose proof (Z.rem_mod m 2 ltac:(lia)) as Hm.
  pose proof (Z.mod_pos_bound (Z.abs m) (Z.abs 2) ltac:(lia)) as Hp.
  split; intros Hs.
  - destruct (Z.eq_dec m 0) as [-> | N]; [cbn; lia |].
    rewrite Z.sgn_pos in Hm by lia. lia.
  - destruct (Z.eq_dec m 0) as [-> | N]; [cbn; lia |].
    rewrite Z.sgn_neg in Hm by lia. lia.
Qed.

(** X11. The row asked of the grid for a tile (lines 50-53) is
    [maxTileY - y - maxTileY % 2].  For tiles whose rows are integers of
    magnitude at most 2^52 this is computed exactly; it has the parity of
    the tile's own row [y] (the staggering of the grid is kept, as the
    comment of line 49 says), it turns the rows upside down, and it is never
    below -1.  The ring of the tile is what the grid gives around that
    center, closed by its first point. *)
Theorem hexagon_ring_row (tiles : list Tile) (t : Tile) :
  In t tiles ->
  (forall t', In t' tiles -> Z.abs (y (position t')) <= 2 ^ 52) ->
  exists m row,
    max_tile_y tiles = Int m
    /\ row = m - y (position t) - Z.rem m 2
    /\ Z.even row = Z.even (y (position t))
    /\ -1 <= row <= m - y (position t) + 1
    /\ tile_center C (max_tile_y tiles) t
       = tileCenterPoint C (Int (x (position t)), Int row)
    /\ hexagon_ring C (max_tile_y tiles) t
       = match getPointsAround C (tileCenterPoint C (Int (x (position t)), Int row)) with
         | [] => Throw TypeError
         | first :: rest => Ok (first :: rest ++ [first])
         end.
Proof.
  intros Hin Hb.
  destruct (proj2 (max_tile_y_nonempty tiles)) as (m & Em & Hall & (tm & Htm & Hm)).
  { intros ->. destruct Hin. }
  pose proof (Hb t Hin) as Hbt. pose proof (Hb tm Htm) as Hbm. rewrite Hm in Hbm.
  pose proof (Hall t Hin) as Hle.
  destruct (rem_2_bounds m) as (Hpos & Hneg).
  exists m, (m - y (position t) - Z.rem m 2). split; [exact Em |]. split; [reflexivity |].
  assert (Hcenter : tile_center C (max_tile_y tiles) t
                    = tileCenterPoint C
                        (Int (x (position t)), Int (m - y (position t) - Z.rem m 2))).
  { unfold tile_center. rewrite Em. rewrite js_sub_exact by lia.
    change (js_rem (Int m) (Int 2)) with (Int (Z.rem m 2)).
    rewrite js_sub_exact; [reflexivity |].
    destruct (Z_le_gt_dec 0 m); lia. }
  split; [| split; [| split]].
  - rewrite (Z.quot_rem' m 2) at 1.
    replace (2 * (m ÷ 2) + Z.rem m 2 - y (position t) - Z.rem m 2)
      with (2 * (m ÷ 2) - y (position t)) by lia.
    rewrite Z.even_sub, Z.even_mul. cbn. now destruct (Z.even (y (position t))).
  - destruct (Z_le_gt_dec 0 m); lia.
  - exact Hcenter.
  - unfold hexagon_ring. cbv zeta. fold (tile_center C (max_tile_y tiles) t).
    rewrite Hcenter. destruct (getPointsAround C _) as [| [px py] rest]; reflexivity.
Qed.

End ExporterRows.

(** ** [toTopoJson] followed by [fromGeoJSON] *)

Section PipelineFacts.
Import Pipeline.

Lemma encode_features_returns (fs : list DeltaEncoder.Feature) :
  forall arcs0 per,
    mapM DeltaEncoder.feature_arcs fs = Ok per ->
    exists gs,
      DeltaEncoder.encode_features arcs0 fs = Ok (arcs0 ++ concat per, gs)
      /\ Forall2 (fun f g =>
                    exists geom,
                      DeltaEncoder.geometry f = Some geom
                      /\ DeltaEncoder.type g
                         = if DeltaEncoder.hasMultiplePaths geom
                           then "MultiPolygon" else "Polygon")
                 fs gs.
Proof.
  induction fs as [| f fs IH]; intros arcs0 per H; cbn in H.
  - inversion H; subst. exists []. cbn. rewrite app_nil_r. split; [reflexivity | constructor].
  - destruct (DeltaEncoder.feature_arcs f) as [new_arcs |] eqn:Ef; cbn in H; [| discriminate].
    destruct (mapM DeltaEncoder.feature_arcs fs) as [per' |] eqn:Efs; cbn in H;
      [| discriminate].
    inversion H; subst; clear H.
    destruct (IH (arcs0 ++ new_arcs) per' eq_refl) as (gs & Egs & Hgs).
    cbn [DeltaEncoder.encode_features]. rewrite encode_feature_eq.
    assert (Hg : exists geom, DeltaEncoder.geometry f = Some geom).
    { unfold DeltaEncoder.feature_arcs in Ef.
      destruct (DeltaEncoder.geometry f); [eauto | discriminate]. }
    destruct Hg as (geom & Hg). rewrite Hg, Ef. cbn [bind]. cbv zeta. rewrite Egs.
    cbn [bind]. eexists. split; [cbn; now rewrite <- app_assoc |].
    constructor; [| exact Hgs]. exists geom. split; [exact Hg | reflexivity].
Qed.

Lemma encode_features_throws (fs : list DeltaEncoder.Feature) :
  forall arcs0 e,
    mapM DeltaEncoder.feature_arcs fs = Throw e ->
    DeltaEncoder.encode_features arcs0 fs = Throw TypeError.
Proof.
  induction fs as [| f fs IH]; intros arcs0 e H; cbn in H; [discriminate |].
  cbn [DeltaEncoder.encode_features]. rewrite encode_feature_eq.
  destruct (DeltaEncoder.geometry f) as [geom |] eqn:Hg; [| reflexivity].
  destruct (DeltaEncoder.feature_arcs f) as [new_arcs | []] eqn:Ef; cbn [bind];
    [| reflexivity].
  cbv zeta. cbn in H.
  destruct (mapM DeltaEncoder.feature_arcs fs) as [per' | e'] eqn:Efs; cbn in H;
    [discriminate |].
  now rewrite (IH (arcs0 ++ new_arcs) e' eq_refl).
Qed.

Lemma parts_points (parts : list (list (TopoExporter.Ring number))) :
  Forall (fun part => length part = 1%nat) parts ->
  mapM (DeltaEncoder.path_points true) (map (fun part => VArr (map ring_value part)) parts)
  = Ok (map (map point_value) (concat parts)).
Proof.
  induction 1 as [| part parts Hp _ IH]; cbn; [reflexivity |].
  destruct part as [| ring [| ring' rest]]; cbn in Hp; try discriminate.
  cbn. fold (map (fun part => VArr (map ring_value part)) parts).
  now rewrite IH.
Qed.

(** The arcs of a feature that [toTopoJson] built for a region with tiles:
    one arc per ring, and the type that the feature declares. *)
Lemma feature_arcs_tiled {Name Metric : Type}
    (f : TopoExporter.Feature number Name Metric) (g : TopoExporter.Geometry number) :
  TopoExporter.geometry f = Some g ->
  tiled_geometry g ->
  DeltaEncoder.feature_arcs (feature_value f)
  = Ok (map (fun ring => DeltaEncoder.encode_arc (map point_value ring)) (feature_rings f))
  /\ (if DeltaEncoder.hasMultiplePaths (geometry_value g) then "MultiPolygon" else "Polygon")
     = TopoExporter.geometry_type g.
Proof.
  intros Hg Ht. unfold DeltaEncoder.feature_arcs, feature_value, feature_rings.
  cbn [DeltaEncoder.geometry]. rewrite Hg. cbn [option_map].
  destruct g as [rings | parts]; cbn in Ht.
  - destruct rings as [| ring [| ring' rest]]; cbn in Ht; try discriminate.
    split; reflexivity.
  - destruct Ht as (Hlen & Hparts).
    unfold DeltaEncoder.hasMultiplePaths. cbn [geometry_value DeltaEncoder.coordinates].
    rewrite length_map.
    assert (E : (1 <? length parts)%nat = true) by (apply Nat.ltb_lt; lia).
    rewrite E, (parts_points Hparts). cbn [bind]. rewrite map_map. split; reflexivity.
Qed.

End PipelineFacts.

Section PipelineClaims.
Import Pipeline.
Context {Center Dimensions Name Metric Geography Version TopoJSON : Type}.
Variable C : TopoExporter.Collaborators Center number Dimensions Name Metric Geography
               Version TopoJSON.

(** The shape of each feature of [toTopoJson]: a tiled geometry for a region
    of the tiles, no geometry for a region of the dataset alone. *)
Lemma toTopoJson_feature_shapes (tiles : list TopoExporter.Tile)
    (dataset : list (string * Metric)) (geography : Geography)
    (features : list (TopoExporter.Feature number Name Metric)) :
  TopoExporter.toTopoJson_features C tiles dataset geography = Ok features ->
  Forall (fun f =>
            match TopoExporter.geometry f with
            | Some g => tiled_geometry g
            | None => In (TopoExporter.feature_id f) (map fst dataset)
                      /\ inherited (TopoExporter.feature_id f) = false
                      /\ ~ In (TopoExporter.feature_id f) (map TopoExporter.id tiles)
            end)
         features
  /\ forall k, In k (map fst dataset) -> inherited k = false ->
               ~ In k (map TopoExporter.id tiles) ->
               exists f, In f features /\ TopoExporter.geometry f = None.
Proof.
  unfold TopoExporter.toTopoJson_features. cbv zeta.
  destruct (TopoExporter.aggregate tiles dataset) as [o |] eqn:Ea; cbn [bind];
    [| discriminate].
  intros H.
  destruct (aggregate_general tiles dataset (aggregate_Ok_tiles _ _ Ea))
    as (o' & Eo & _ & Hget).
  rewrite Ea in Eo. inversion Eo; subst o'; clear Eo.
  destruct (aggregate_keys _ _ Ea) as (_ & Hkeys).
  assert (Hshape : forall k f,
            TopoExporter.make_feature C (TopoExporter.max_tile_y tiles)
              (TopoExporter.getGeoCodeHash C geography) dataset o k = Ok f ->
            TopoExporter.feature_id f = k
            /\ match TopoExporter.geometry f with
               | Some g => tiled_geometry g /\ In k (map TopoExporter.id tiles)
               | None => ~ In k (map TopoExporter.id tiles)
               end).
  { intros k f Hf. apply make_feature_Ok in Hf.
    destruct Hf as (st & d & Hg & Hgeo & _ & Hid & _). split; [exact Hid |].
    rewrite Hget in Hg.
    destruct (TopoExporter.tiles_of_region k tiles) as [| t0 ts] eqn:Etr.
    - apply tiles_of_region_nil in Etr.
      destruct (mem k _); inversion Hg; subst st. cbn in Hgeo. inversion Hgeo.
      exact Etr.
    - inversion Hg; subst st; clear Hg. apply make_geometry_Some in Hgeo.
      destruct Hgeo as (rings & _ & Hlen & _ & H1 & Hn).
      assert (Hin : In k (map TopoExporter.id tiles)).
      { destruct (in_dec string_dec k (map TopoExporter.id tiles)) as [Hin | Hnin];
          [exact Hin |].
        apply tiles_of_region_nil in Hnin. congruence. }
      destruct ts as [| t1 ts'].
      + rewrite (H1 eq_refl). cbn. split; [exact Hlen | exact Hin].
      + rewrite Hn by (cbn; lia). cbn. rewrite length_map, Hlen. cbn [length].
        split; [| exact Hin]. split; [lia |].
        apply Forall_forall. intros part Hp. apply in_map_iff in Hp.
        now destruct Hp as (r & <- & _). }
  split.
  - apply mapM_Forall2 in H. apply Forall_forall. intros f Hf.
    assert (Hex : exists k, In k (Object_keys o)
                            /\ TopoExporter.make_feature C (TopoExporter.max_tile_y tiles)
                                 (TopoExporter.getGeoCodeHash C geography) dataset o k
                               = Ok f).
    { clear - H Hf. induction H as [| k f' ks fs Hk _ IH]; [destruct Hf |].
      destruct Hf as [-> | Hf].
      - exists k. split; [now left | exact Hk].
      - destruct (IH Hf) as (k' & Hin & Hk'). exists k'. split; [now right | exact Hk']. }
    destruct Hex as (k & Hk & Hmk). destruct (Hshape k f Hmk) as (Hid & Hs).
    destruct (TopoExporter.geometry f) as [g |]; [tauto |]. rewrite Hid.
    apply Hkeys in Hk. tauto.
  - intros k Hd Hinh Hnt.
    assert (Hk : In k (Object_keys o)) by (apply Hkeys; tauto).
    destruct (mapM_Ok_In _ _ _ H Hk) as (f & Hf & Hin). exists f. split; [exact Hin |].
    destruct (Hshape k f Hf) as (_ & Hs).
    destruct (TopoExporter.geometry f) as [g |]; [tauto | reflexivity].
Qed.

(** X12. The features that [toTopoJson] builds (for a grid whose points are
    pairs of numbers), given to [fromGeoJSON]:
    - when every dataset region has a tile (regions named like a member of
      [Object.prototype] apart, which get no feature), [fromGeoJSON] returns;
      its arcs are the delta encodings of the features' rings, ring after
      ring in feature order, and every output geometry has the type its
      feature declares;
    - when some dataset region has no tile, its feature has geometry [null]
      and [fromGeoJSON] throws. *)
Theorem fromGeoJSON_of_toTopoJson (tiles : list TopoExporter.Tile)
    (dataset : list (string * Metric)) (geography : Geography)
    (objectId : option string)
    (features : list (TopoExporter.Feature number Name Metric)) :
  TopoExporter.toTopoJson_features C tiles dataset geography = Ok features ->
  ((forall d, In d dataset -> inherited (fst d) = false ->
              In (fst d) (map TopoExporter.id tiles)) ->
   exists topo,
     DeltaEncoder.fromGeoJSON {| DeltaEncoder.features := map feature_value features |}
       objectId
     = Ok topo
     /\ DeltaEncoder.topology_arcs topo
        = map (fun ring => DeltaEncoder.encode_arc (map point_value ring))
              (flat_map feature_rings features)
     /\ map (fun g => Some (DeltaEncoder.type g)) (DeltaEncoder.topology_geometries topo)
        = map declared_type features)
  /\ ((exists d, In d dataset /\ inherited (fst d) = false
                 /\ ~ In (fst d) (map TopoExporter.id tiles)) ->
      DeltaEncoder.fromGeoJSON {| DeltaEncoder.features := map feature_value features |}
        objectId
      = Throw TypeError).
Proof.
  intros H. destruct (toTopoJson_feature_shapes _ _ _ H) as (Hshapes & Hnull). split.
  - intros Hall.
    assert (Htiled : Forall (fun f => exists g, TopoExporter.geometry f = Some g
                                                /\ tiled_geometry g) features).
    { apply Forall_forall. intros f Hf. rewrite Forall_forall in Hshapes.
      specialize (Hshapes f Hf). destruct (TopoExporter.geometry f) as [g |]; [eauto |].
      destruct Hshapes as (Hd & Hinh & Hnt). apply in_map_iff in Hd.
      destruct Hd as (d & Heq & Hd). destruct Hnt. rewrite <- Heq.
      apply Hall; [exact Hd | now rewrite Heq]. }
    clear - Htiled.
    assert (Hper : mapM DeltaEncoder.feature_arcs (map feature_value features)
                   = Ok (map (fun f => map (fun ring => DeltaEncoder.encode_arc
                                                          (map point_value ring))
                                           (feature_rings f)) features)).
    { induction Htiled as [| f fs (g & Hg & Ht) _ IH]; cbn; [reflexivity |].
      rewrite (proj1 (feature_arcs_tiled f Hg Ht)), IH. reflexivity. }
    destruct (encode_features_returns _ [] Hper) as (gs & Egs & Hgs).
    unfold DeltaEncoder.fromGeoJSON. cbn [DeltaEncoder.features]. rewrite Egs. cbn [bind].
    eexists. split; [reflexivity |]. split.
    + cbn. clear. induction features as [| f fs IH]; cbn; [reflexivity |].
      now rewrite map_app, IH.
    + unfold DeltaEncoder.topology_geometries. cbn. rewrite app_nil_r.
      clear - Htiled Hgs. revert gs Hgs.
      induction Htiled as [| f fs (g & Hg & Ht) _ IH]; intros gs Hgs; inversion Hgs; subst;
        [reflexivity |].
      cbn [map]. f_equal; [| now apply IH].
      match goal with Hx : exists geom, _ |- _ => destruct Hx as (geom & Hgeom & Hty) end.
      unfold declared_type. rewrite Hg. cbn [option_map]. f_equal.
      cbn in Hgeom. rewrite Hg in Hgeom. cbn in Hgeom. inversion Hgeom; subst geom.
      rewrite Hty. apply (feature_arcs_tiled f Hg Ht).
  - intros (d & Hd & Hinh & Hnt).
    destruct (Hnull (fst d) (in_map fst _ _ Hd) Hinh Hnt) as (f & Hf & Hg).
    unfold DeltaEncoder.fromGeoJSON. cbn [DeltaEncoder.features].
    assert (Hthrow : mapM DeltaEncoder.feature_arcs (map feature_value features)
                     = Throw TypeError).
    { apply (@mapM_In_Throw _ _ _ _ (feature_value f) TypeError).
      - now apply in_map.
      - unfold DeltaEncoder.feature_arcs, feature_value. cbn. now rewrite Hg. }
    now rewrite (encode_features_throws _ [] Hthrow).
Qed.

End PipelineClaims.

Section ExporterMoreExamples.
Import TopoExporter.

Lemma toTopoJson_feature_ids_witness :
  exists features,
    toTopoJson_features example_collaborators
      [example_tile "X" 0 0; example_tile "X" 1 0; example_tile "Y" 0 3]
      [("X", 5); ("Y", 7); ("toString", 1); ("2", 9); ("2", 8)] "US"
    = Ok features
    /\ map (@feature_id number string Z) features = ["2"; "X"; "Y"]
    /\ NoDup (map (@feature_id number string Z) features).
Proof.
  eexists. split; [reflexivity |]. split; [reflexivity |].
  apply (@toTopoJson_feature_ids _ _ _ _ _ _ _ _ example_collaborators
           [example_tile "X" 0 0; example_tile "X" 1 0; example_tile "Y" 0 3]
           [("X", 5); ("Y", 7); ("toString", 1); ("2", 9); ("2", 8)] "US").
  reflexivity.
Defined.

Lemma max_tile_y_is_max_witness :
  exists m,
    max_tile_y [example_tile "X" 0 0; example_tile "X" 1 0; example_tile "Y" 0 3] = Int m
    /\ (forall t, In t [example_tile "X" 0 0; example_tile "X" 1 0; example_tile "Y" 0 3] ->
                  y (position t) <= m)
    /\ exists t, In t [example_tile "X" 0 0; example_tile "X" 1 0; example_tile "Y" 0 3]
                 /\ y (position t) = m.
Proof.
  apply (proj2 (max_tile_y_is_max
                  [example_tile "X" 0 0; example_tile "X" 1 0; example_tile "Y" 0 3])).
  discriminate.
Defined.

Lemma hexagon_ring_row_witness :
  exists m row,
    max_tile_y [example_tile "X" 0 0; example_tile "X" 1 0; example_tile "Y" 0 3] = Int m
    /\ row = m - y (position (example_tile "X" 1 0)) - Z.rem m 2
    /\ Z.even row = Z.even (y (position (example_tile "X" 1 0)))
    /\ -1 <= row <= m - y (position (example_tile "X" 1 0)) + 1
    /\ tile_center example_collaborators
         (max_tile_y [example_tile "X" 0 0; example_tile "X" 1 0; example_tile "Y" 0 3])
         (example_tile "X" 1 0)
       = tileCenterPoint example_collaborators
           (Int (x (position (example_tile "X" 1 0))), Int row)
    /\ hexagon_ring example_collaborators
         (max_tile_y [example_tile "X" 0 0; example_tile "X" 1 0; example_tile "Y" 0 3])
         (example_tile "X" 1 0)
       = match getPointsAround example_collaborators
                 (tileCenterPoint example_collaborators
                    (Int (x (position (example_tile "X" 1 0))), Int row)) with
         | [] => Throw TypeError
         | first :: rest => Ok (first :: rest ++ [first])
         end.
Proof.
  apply (@hexagon_ring_row _ _ _ _ _ _ _ _ example_collaborators
           [example_tile "X" 0 0; example_tile "X" 1 0; example_tile "Y" 0 3]
           (example_tile "X" 1 0)).
  - cbn. tauto.
  - intros t [<- | [<- | [<- | []]]]; cbn; lia.
Defined.

Lemma fromGeoJSON_of_toTopoJson_witness :
  exists features topo,
    toTopoJson_features example_collaborators
      [example_tile "X" 0 0; example_tile "X" 1 0; example_tile "Y" 0 3]
      [("X", 5); ("Y", 7)] "US"
    = Ok features
    /\ DeltaEncoder.fromGeoJSON
         {| DeltaEncoder.features := map Pipeline.feature_value features |} None
       = Ok topo
    /\ length (DeltaEncoder.topology_arcs topo) = 3%nat
    /\ DeltaEncoder.topology_arcs topo
       = map (fun ring => DeltaEncoder.encode_arc (map Pipeline.point_value ring))
             (flat_map Pipeline.feature_rings features)
    /\ map (fun g => Some (DeltaEncoder.type g)) (DeltaEncoder.topology_geometries topo)
       = map Pipeline.declared_type features.
Proof.
  eexists.
  destruct (proj1 (@fromGeoJSON_of_toTopoJson _ _ _ _ _ _ _ example_collaborators
                     [example_tile "X" 0 0; example_tile "X" 1 0; example_tile "Y" 0 3]
                     [("X", 5); ("Y", 7)] "US" None _ eq_refl))
    as (topo & Etopo & Harcs & Htypes).
  - intros d [<- | [<- | []]] _; cbn; tauto.
  - exists topo. split; [reflexivity |]. split; [exact Etopo |].
    split; [| split; [exact Harcs | exact Htypes]].
    rewrite Harcs. reflexivity.
Defined.

End ExporterMoreExamples.
